(** * Event management API: storage, transactions and request handlers

    Shallow embedding of [src/server.js] over the relational schema of
    [src/migrations/init.sql].

    - Tables are lists of rows, in insertion order ([rows[0]] is the head of
      a result set).
    - A pooled connection ([client]) carries the committed database and,
      between BEGIN and COMMIT/ROLLBACK, the working copy of the open
      transaction.
    - A statement is a function from the connection to a result (rows, or a
      thrown error message) and the connection afterwards; handlers are
      written in the induced state-and-exception monad, with the
      [try { ... } catch (err) { ... }] of the source as [try_catch].
    - What the outside world decides (the server clock read by [new Date()],
      the database clock behind [now()], the identifiers drawn by
      [uuid_generate_v4()]) is an explicit [world] argument.
    - JavaScript Numbers are IEEE 754 binary64 values, computed with the
      operations of [SpecFloat]; integers read from [int] columns are [Z].

    The express-validator middleware in front of each route is not part of
    the embedding: handlers receive identifiers of the column type, and
    emails that are addresses, as isEmail lets no other through, which hold
    no U+0000. Names, titles and locations are any text (strings are the
    UTF-8 bytes sent to the database): the validators only ask that they
    are not empty. *)

From Stdlib Require Import List String Ascii ZArith Lia Bool.
From Stdlib Require Import Floats.SpecFloat Numbers.DecimalString.
Import ListNotations.
Local Open Scope string_scope.
Local Open Scope Z_scope.

(** ** JavaScript values sent with [res.json] *)

#[local] Unset Elimination Schemes.
Inductive value : Type :=
| VNull
| VNum (n : Z)
| VStr (s : string)
| VDate (t : Z)
| VArr (items : list value)
| VObj (fields : list (string * value)).
#[local] Set Elimination Schemes.

Record response : Type := mkResponse { status : Z; body : value }.

(** [res.status(code).json({ error: msg })] and [{ message: msg }]. *)
Definition error_json (code : Z) (msg : string) : response :=
  mkResponse code (VObj [("error", VStr msg)]).

Definition message_json (code : Z) (msg : string) : response :=
  mkResponse code (VObj [("message", VStr msg)]).

(** Every string occurring as a leaf of a value. *)
Fixpoint strings_of (v : value) : list string :=
  match v with
  | VStr s => [s]
  | VArr items => flat_map strings_of items
  | VObj fields => flat_map (fun kv => strings_of (snd kv)) fields
  | _ => []
  end.

(** ** The schema of init.sql *)

Module Storage.

Definition uuid : Type := string.
(** Milliseconds since the epoch, the time value of a JavaScript [Date]. *)
Definition timestamp : Type := Z.

Record user : Type := mkUser {
  user_id : uuid;
  user_name : string;
  user_email : string
}.

Record event : Type := mkEvent {
  event_id : uuid;
  event_title : string;
  event_datetime : timestamp;
  event_location : string;
  event_capacity : Z;
  event_created_at : timestamp
}.

Record registration : Type := mkRegistration {
  reg_id : uuid;
  reg_user_id : uuid;
  reg_event_id : uuid;
  reg_registered_at : timestamp
}.

Record database : Type := mkDatabase {
  users : list user;
  events : list event;
  registrations : list registration
}.

(** Column names of [CREATE TABLE events], init.sql lines 9-16. *)
Definition events_columns : list string :=
  ["id"; "title"; "datetime"; "location"; "capacity"; "created_at"].

(** The value of a column of an event row; [None] for a name the table
    does not declare. *)
Definition event_column (col : string) (e : event) : option value :=
  if (col =? "id")%string then Some (VStr (event_id e))
  else if (col =? "title")%string then Some (VStr (event_title e))
  else if (col =? "datetime")%string then Some (VDate (event_datetime e))
  else if (col =? "location")%string then Some (VStr (event_location e))
  else if (col =? "capacity")%string then Some (VNum (event_capacity e))
  else if (col =? "created_at")%string then Some (VDate (event_created_at e))
  else None.

(** The constraints the schema declares. *)
Definition users_pkey (d : database) : Prop := NoDup (map user_id (users d)).
Definition users_email_key (d : database) : Prop :=
  NoDup (map user_email (users d)).
Definition events_pkey (d : database) : Prop :=
  NoDup (map event_id (events d)).
Definition capacity_check (d : database) : Prop :=
  forall e, In e (events d) -> 0 < event_capacity e <= 1000.
Definition registrations_pkey (d : database) : Prop :=
  NoDup (map reg_id (registrations d)).
Definition registrations_user_id_fkey (d : database) : Prop :=
  forall r, In r (registrations d) ->
            In (reg_user_id r) (map user_id (users d)).
Definition registrations_event_id_fkey (d : database) : Prop :=
  forall r, In r (registrations d) ->
            In (reg_event_id r) (map event_id (events d)).
Definition registrations_user_event_key (d : database) : Prop :=
  NoDup (map (fun r => (reg_user_id r, reg_event_id r)) (registrations d)).

End Storage.
Import Storage.

(** ** Connections, transactions and statements *)

Inductive result (A : Type) : Type :=
| Ok (a : A)
| Thrown (msg : string).
Arguments Ok {A} a.
Arguments Thrown {A} msg.

Record client : Type := mkClient {
  committed : database;
  txn : option database
}.

(** [pool.connect()] hands out an idle connection. *)
Definition connect (d : database) : client := mkClient d None.

(** What a statement on this connection reads. *)
Definition view (c : client) : database :=
  match txn c with
  | Some d => d
  | None => committed c
  end.

(** What a statement on this connection writes: the working copy inside a
    transaction, the committed database in autocommit mode. *)
Definition write (c : client) (d : database) : client :=
  match txn c with
  | Some _ => mkClient (committed c) (Some d)
  | None => mkClient d None
  end.

Definition query (A : Type) : Type := client -> result A * client.

Definition ret {A : Type} (a : A) : query A := fun c => (Ok a, c).

Definition bind {A B : Type} (m : query A) (k : A -> query B) : query B :=
  fun c =>
    match m c with
    | (Ok a, c') => k a c'
    | (Thrown msg, c') => (Thrown msg, c')
    end.

Declare Scope query_scope.
Delimit Scope query_scope with query.
Notation "x <- m ;; k" := (bind m (fun x => k))
  (at level 100, m at next level, right associativity) : query_scope.
Notation "m ;;; k" := (bind m (fun _ => k))
  (at level 100, right associativity) : query_scope.
Local Open Scope query_scope.

(** [try { body } catch (err) { handler }]; the catch blocks of the source
    only run statements that cannot fail. *)
Definition try_catch (body : query response)
           (handler : string -> client -> response * client)
  : client -> response * client :=
  fun c =>
    match body c with
    | (Ok r, c') => (r, c')
    | (Thrown msg, c') => handler msg c'
    end.

Definition quoted (s : string) : string :=
  String (ascii_of_nat 34) (s ++ String (ascii_of_nat 34) EmptyString).

Module Pg.

Definition BEGIN : query unit :=
  fun c => (Ok tt, mkClient (committed c) (Some (view c))).

Definition ROLLBACK : query unit :=
  fun c => (Ok tt, mkClient (committed c) None).

Definition COMMIT : query unit :=
  fun c => (Ok tt, mkClient (view c) None).

Definition unique_violation (constraint : string) : string :=
  "duplicate key value violates unique constraint " ++ quoted constraint.

Definition foreign_key_violation (table constraint : string) : string :=
  "insert or update on table " ++ quoted table
    ++ " violates foreign key constraint " ++ quoted constraint.

Definition undefined_column (col : string) : string :=
  "column " ++ quoted col ++ " does not exist".

(** A text parameter travels as UTF-8, and PostgreSQL refuses one that
    holds the character U+0000, the only one whose encoding has a zero
    byte. It does so when the parameters of the statement are bound, before
    a row is read or written. *)
Fixpoint contains_nul (s : string) : bool :=
  match s with
  | EmptyString => false
  | String c s' => (Ascii.eqb c Ascii.zero || contains_nul s')%bool
  end.

Definition invalid_byte_sequence : string :=
  "invalid byte sequence for encoding " ++ quoted "UTF8" ++ ": 0x00".

(** SELECT * FROM events WHERE id=$1 [FOR UPDATE] *)
Definition select_event (id : uuid) : query (list event) :=
  fun c => (Ok (filter (fun e => (event_id e =? id)%string) (events (view c))), c).

(** SELECT COUNT( * )::int FROM registrations WHERE event_id=$1 *)
Definition count_registrations (eventId : uuid) : query Z :=
  fun c =>
    (Ok (Z.of_nat (List.length (filter (fun r => (reg_event_id r =? eventId)%string)
                                  (registrations (view c))))), c).

(** SELECT * FROM users WHERE email=$1. The email of a request is an
    address the isEmail validator of the route let through; such an address
    holds no U+0000, so this parameter is always bound. *)
Definition select_user (email : string) : query (list user) :=
  fun c => (Ok (filter (fun u => (user_email u =? email)%string) (users (view c))), c).

(** INSERT INTO users (name,email) VALUES ($1,$2) RETURNING id, with [id]
    the identifier drawn by the column default. The name is whatever text
    the request carries: the validator of the route only asks that it is
    not empty. *)
Definition insert_user (id : uuid) (name email : string) : query uuid :=
  fun c =>
    let d := view c in
    if contains_nul name
    then (Thrown invalid_byte_sequence, c)
    else if existsb (fun u => (user_id u =? id)%string) (users d)
    then (Thrown (unique_violation "users_pkey"), c)
    else if existsb (fun u => (user_email u =? email)%string) (users d)
    then (Thrown (unique_violation "users_email_key"), c)
    else (Ok id,
          write c (mkDatabase (users d ++ [mkUser id name email])%list
                              (events d) (registrations d))).

(** SELECT * FROM registrations WHERE user_id=$1 AND event_id=$2 *)
Definition select_registration (userId eventId : uuid)
  : query (list registration) :=
  fun c =>
    (Ok (filter (fun r => (reg_user_id r =? userId)%string
                          && (reg_event_id r =? eventId)%string)%bool
                (registrations (view c))), c).

(** INSERT INTO registrations (user_id,event_id) VALUES ($1,$2) *)
Definition insert_registration (id : uuid) (at_ : timestamp)
           (userId eventId : uuid) : query unit :=
  fun c =>
    let d := view c in
    if existsb (fun r => (reg_id r =? id)%string) (registrations d)
    then (Thrown (unique_violation "registrations_pkey"), c)
    else if negb (existsb (fun u => (user_id u =? userId)%string) (users d))
    then (Thrown (foreign_key_violation "registrations"
                                        "registrations_user_id_fkey"), c)
    else if negb (existsb (fun e => (event_id e =? eventId)%string) (events d))
    then (Thrown (foreign_key_violation "registrations"
                                        "registrations_event_id_fkey"), c)
    else if existsb (fun r => (reg_user_id r =? userId)%string
                              && (reg_event_id r =? eventId)%string)%bool
                    (registrations d)
    then (Thrown (unique_violation "registrations_user_id_event_id_key"), c)
    else (Ok tt,
          write c (mkDatabase (users d) (events d)
                              (registrations d
                                 ++ [mkRegistration id userId eventId at_])%list)).

(** DELETE FROM registrations WHERE user_id=$1 AND event_id=$2 RETURNING * *)
Definition delete_registration (userId eventId : uuid)
  : query (list registration) :=
  fun c =>
    let d := view c in
    let hit r := ((reg_user_id r =? userId)%string && (reg_event_id r =? eventId)%string)%bool in
    (Ok (filter hit (registrations d)),
     write c (mkDatabase (users d) (events d)
                         (filter (fun r => negb (hit r)) (registrations d)))).

(** SELECT col, ... FROM events [WHERE ...] [ORDER BY ...]: the column
    list is resolved against the table before any row is read. *)
Definition project_event (cols : list string) (e : event) : value :=
  VObj (flat_map (fun col => match event_column col e with
                             | Some v => [(col, v)]
                             | None => []
                             end) cols).

Definition select_event_columns (cols : list string)
           (rows : database -> list event) : query (list value) :=
  fun c =>
    match find (fun col => negb (existsb (String.eqb col) events_columns)) cols with
    | Some col => (Thrown (undefined_column col), c)
    | None => (Ok (map (project_event cols) (rows (view c))), c)
    end.

End Pg.

(** ** The request handlers of server.js *)

(** What the environment decides during one request. *)
Record world : Type := mkWorld {
  clock : timestamp;          (* [new Date()] in the server process *)
  db_clock : timestamp;       (* [now()] in the database *)
  user_uuid : uuid;           (* [uuid_generate_v4()] for a users row *)
  registration_uuid : uuid    (* [uuid_generate_v4()] for a registrations row *)
}.

Module Server.
Import Pg.

(** POST /api/events/:id/register, server.js lines 82-144. *)
Definition register_handler (eventId : uuid) (name email : string) (w : world)
  : client -> response * client :=
  try_catch
    (BEGIN ;;;
     ev <- select_event eventId ;;
     match ev with
     | [] =>
         ROLLBACK ;;;
         ret (error_json 404 "Event not found")
     | event :: _ =>
         if event_datetime event <? clock w then
           ROLLBACK ;;;
           ret (error_json 400 "Cannot register for past event")
         else
           count <- count_registrations eventId ;;
           if count >=? event_capacity event then
             ROLLBACK ;;;
             ret (error_json 400 "Event is full")
           else
             user <- select_user email ;;
             userId <- match user with
                       | [] => insert_user (user_uuid w) name email
                       | u :: _ => ret (user_id u)
                       end ;;
             dup <- select_registration userId eventId ;;
             if (0 <? List.length dup)%nat then
               ROLLBACK ;;;
               ret (error_json 400 "Already registered")
             else
               insert_registration (registration_uuid w) (db_clock w)
                                   userId eventId ;;;
               COMMIT ;;;
               ret (message_json 201 "Registration successful")
     end)
    (fun err c => (error_json 500 err, snd (ROLLBACK c))).

(** POST /api/events/:id/cancel, server.js lines 152-182. *)
Definition cancel_handler (eventId : uuid) (email : string)
  : client -> response * client :=
  try_catch
    (BEGIN ;;;
     user <- select_user email ;;
     match user with
     | [] =>
         ROLLBACK ;;;
         ret (error_json 404 "User not found")
     | u :: _ =>
         del <- delete_registration (user_id u) eventId ;;
         match del with
         | [] =>
             ROLLBACK ;;;
             ret (error_json 400 "User not registered for this event")
         | _ :: _ =>
             COMMIT ;;;
             ret (message_json 200 "Registration cancelled")
         end
     end)
    (fun err c => (error_json 500 err, snd (ROLLBACK c))).

Definition event_select_list : list string :=
  ["id"; "title"; "datetime"; "location"; "capacity"; "created_at";
   "updated_at"].

(** GET /api/events/:id, server.js lines 58-74. *)
Definition get_event_handler (id : uuid) : client -> response * client :=
  try_catch
    (event <- select_event_columns
                event_select_list
                (fun d => filter (fun e => (event_id e =? id)%string) (events d)) ;;
     match event with
     | [] => ret (error_json 404 "Event not found")
     | row :: _ => ret (mkResponse 200 row)
     end)
    (fun err c => (error_json 500 err, c)).

(** ORDER BY datetime ASC *)
Fixpoint insert_by_datetime (e : event) (l : list event) : list event :=
  match l with
  | [] => [e]
  | x :: xs =>
      if event_datetime e <=? event_datetime x then e :: l
      else x :: insert_by_datetime e xs
  end.

Definition order_by_datetime (l : list event) : list event :=
  fold_right insert_by_datetime [] l.

(** GET /api/events, server.js lines 208-217. *)
Definition list_events_handler : client -> response * client :=
  try_catch
    (q <- select_event_columns event_select_list
            (fun d => order_by_datetime (events d)) ;;
     ret (mkResponse 200 (VArr q)))
    (fun err c => (error_json 500 err, c)).

End Server.

(** A request served on a connection taken from the pool: the response and
    the committed database afterwards. *)
Definition serve (h : client -> response * client) (d : database)
  : response * database :=
  let (r, c) := h (connect d) in (r, committed c).

Definition register (eventId : uuid) (name email : string) (w : world)
  : database -> response * database :=
  serve (Server.register_handler eventId name email w).

Definition cancel (eventId : uuid) (email : string)
  : database -> response * database :=
  serve (Server.cancel_handler eventId email).

Definition get_event (id : uuid) : database -> response * database :=
  serve (Server.get_event_handler id).

Definition list_events : database -> response * database :=
  serve Server.list_events_handler.

(** ** JavaScript Numbers: IEEE 754 binary64 *)

Module Number.

Definition prec : Z := 53.
Definition emax : Z := 1024.

(** The Number holding an integer read from an [int] column. *)
Definition of_Z (z : Z) : spec_float := binary_normalize prec emax z 0 false.

Definition div : spec_float -> spec_float -> spec_float := SFdiv prec emax.
Definition mul : spec_float -> spec_float -> spec_float := SFmul prec emax.

(** The decimal digits of a natural number, [0] for zero. *)
Definition digits (n : Z) : string :=
  DecimalString.NilZero.string_of_uint (N.to_uint (Z.to_N n)).

Fixpoint zeros (k : nat) : string :=
  match k with
  | O => ""
  | S k' => String "0" (zeros k')
  end.

(** toFixed, step 9: the integer [n] for which [n / 10^f - m * 2^e] is as
    close to zero as possible, the larger [n] if there are two. *)
Definition nearest_scaled (f : Z) (m : positive) (e : Z) : Z :=
  let num := Z.pos m * 10 ^ f in
  if 0 <=? e then num * 2 ^ e
  else (2 * num + 2 ^ (- e)) / 2 ^ (1 - e).

(** toFixed, steps 9-10: the digits of [n] with a point before the last
    [f] of them, padded with zeros to at least [f + 1] digits. *)
Definition fixed_digits (f : nat) (n : Z) : string :=
  let m := digits n in
  if Nat.eqb f 0 then m
  else
    let m' := if (String.length m <=? f)%nat
              then zeros (f + 1 - String.length m) ++ m
              else m in
    let k := String.length m' in
    substring 0 (k - f) m' ++ "." ++ substring (k - f) f m'.

Section ToFixed.

(** Number::toString for finite values of magnitude 10^21 and above
    (exponent notation); only [toFixed]'s fallback refers to it. *)
Variable toString_large : spec_float -> string.

(** Number.prototype.toFixed(fractionDigits). *)
Definition toFixed (f : nat) (x : spec_float) : string :=
  match x with
  | S754_nan => "NaN"
  | S754_infinity false => "Infinity"
  | S754_infinity true => "-Infinity"
  | S754_zero _ => fixed_digits f 0
  | S754_finite s m e =>
      let sign := if s then "-" else "" in
      if SFleb (of_Z (10 ^ 21)) (S754_finite false m e)
      then sign ++ toString_large (S754_finite false m e)
      else sign ++ fixed_digits f (nearest_scaled (Z.of_nat f) m e)
  end.

End ToFixed.

End Number.

Module Stats.
Import Pg.

Section Handler.
Variable toString_large : spec_float -> string.

(** SELECT capacity FROM events WHERE id=$1 *)
Definition select_capacity (id : uuid) : query (list Z) :=
  fun c => (Ok (map event_capacity
                    (filter (fun e => (event_id e =? id)%string)
                            (events (view c)))), c).

(** GET /api/events/:id/stats, server.js lines 186-205. *)
Definition stats_handler (id : uuid) : client -> response * client :=
  try_catch
    (ev <- select_capacity id ;;
     match ev with
     | [] => ret (error_json 404 "Event not found")
     | cap :: _ =>
         total <- count_registrations id ;;
         let remaining := cap - total in
         let percent :=
           Number.toFixed toString_large 2
             (Number.mul (Number.div (Number.of_Z total) (Number.of_Z cap))
                         (Number.of_Z 100)) in
         ret (mkResponse 200
                (VObj [("totalRegistrations", VNum total);
                       ("remainingCapacity", VNum remaining);
                       ("percentUsed", VStr percent)]))
     end)
    (fun err c => (error_json 500 err, c)).

Definition getStats (id : uuid) : database -> response * database :=
  serve (stats_handler id).

End Handler.
End Stats.

(** ** Reading the committed database *)

Definition on_event (eventId : uuid) (r : registration) : bool :=
  (reg_event_id r =? eventId)%string.

Definition on_pair (userId eventId : uuid) (r : registration) : bool :=
  ((reg_user_id r =? userId)%string && (reg_event_id r =? eventId)%string)%bool.

(** The event row a lookup by identifier yields. *)
Definition find_event (d : database) (eventId : uuid) : option event :=
  hd_error (filter (fun e => (event_id e =? eventId)%string) (events d)).

(** The user row a lookup by email yields. *)
Definition find_user (d : database) (email : string) : option user :=
  hd_error (filter (fun u => (user_email u =? email)%string) (users d)).

(** Number of committed registrations of an event. *)
Definition registration_count (d : database) (eventId : uuid) : Z :=
  Z.of_nat (List.length (filter (on_event eventId) (registrations d))).

(** Whether the user holds a registration for the event. *)
Definition registered (d : database) (userId eventId : uuid) : bool :=
  existsb (on_pair userId eventId) (registrations d).

Definition user_id_taken (d : database) (id : uuid) : bool :=
  existsb (fun u => (user_id u =? id)%string) (users d).

Definition registration_id_taken (d : database) (id : uuid) : bool :=
  existsb (fun r => (reg_id r =? id)%string) (registrations d).

(** The database after a registrations row is added. *)
Definition with_registration (d : database) (w : world) (userId eventId : uuid)
  : database :=
  mkDatabase (users d) (events d)
             (registrations d
                ++ [mkRegistration (registration_uuid w) userId eventId
                                   (db_clock w)])%list.

(** The database after a users row is added. *)
Definition with_user (d : database) (w : world) (name email : string)
  : database :=
  mkDatabase (users d ++ [mkUser (user_uuid w) name email])%list
             (events d) (registrations d).

(** The database after the registrations of a user for an event are deleted. *)
Definition without_registration (d : database) (userId eventId : uuid)
  : database :=
  mkDatabase (users d) (events d)
             (filter (fun r => negb (on_pair userId eventId r)) (registrations d)).

(** The responses of the register route. *)
Definition event_not_found : response := error_json 404 "Event not found".
Definition past_event : response := error_json 400 "Cannot register for past event".
Definition event_full : response := error_json 400 "Event is full".
Definition already_registered : response := error_json 400 "Already registered".
Definition registration_successful : response :=
  message_json 201 "Registration successful".

(** The responses of the cancel route. *)
Definition user_not_found : response := error_json 404 "User not found".
Definition not_registered : response :=
  error_json 400 "User not registered for this event".
Definition registration_cancelled : response :=
  message_json 200 "Registration cancelled".

(** ** The register operation as the specification orders it *)

Inductive register_error : Type :=
| NotFound
| EventExpired
| CapacityExceeded
| DuplicateRegistration
| StorageFailure (msg : string).

(** How the route reports each kind of failure. *)
Definition error_response (k : register_error) : response :=
  match k with
  | NotFound => event_not_found
  | EventExpired => past_event
  | CapacityExceeded => event_full
  | DuplicateRegistration => already_registered
  | StorageFailure msg => error_json 500 msg
  end.

(** Step 4: look the attendee up by email, creating the user if absent. *)
Definition resolve_user (d : database) (name email : string) (w : world)
  : result (uuid * database) :=
  match find_user d email with
  | Some u => Ok (user_id u, d)
  | None =>
      if Pg.contains_nul name
      then Thrown Pg.invalid_byte_sequence
      else if user_id_taken d (user_uuid w)
      then Thrown (Pg.unique_violation "users_pkey")
      else Ok (user_uuid w, with_user d w name email)
  end.

(** Steps 1 to 6 in order, each failure ending the operation. *)
Definition register_spec (eventId : uuid) (name email : string) (w : world)
           (d : database) : register_error + database :=
  match find_event d eventId with
  | None => inl NotFound
  | Some ev =>
      if event_datetime ev <? clock w then inl EventExpired
      else if event_capacity ev <=? registration_count d eventId
      then inl CapacityExceeded
      else
        match resolve_user d name email w with
        | Thrown msg => inl (StorageFailure msg)
        | Ok (userId, d1) =>
            if registered d1 userId eventId then inl DuplicateRegistration
            else if registration_id_taken d1 (registration_uuid w)
            then inl (StorageFailure (Pg.unique_violation "registrations_pkey"))
            else inr (with_registration d1 w userId eventId)
        end
  end.

(** ** Sequences of register and cancel requests *)

Inductive request : Type :=
| Register (eventId : uuid) (name email : string) (w : world)
| Cancel (eventId : uuid) (email : string).

Definition handle (rq : request) (d : database) : response * database :=
  match rq with
  | Register eventId name email w => register eventId name email w d
  | Cancel eventId email => cancel eventId email d
  end.

(** The committed database after the requests were served one after the
    other, each in its own transaction. *)
Definition run (rqs : list request) (d : database) : database :=
  fold_left (fun d' rq => snd (handle rq d')) rqs d.

(** No event holds more registrations than its capacity. *)
Definition within_capacity (d : database) : Prop :=
  forall eventId ev,
    find_event d eventId = Some ev ->
    registration_count d eventId <= event_capacity ev.

(** ** Sample data *)

Module Sample.

(** An event with room for one attendee, scheduled at time 2000. *)
Definition gala : event := mkEvent "e-1" "Gala" 2000 "Hall" 1 0.
(** An event with room for ten, scheduled at the same time. *)
Definition fair : event := mkEvent "e-2" "Fair" 2000 "Park" 10 0.
Definition ann : user := mkUser "u-1" "Ann" "ann@example.org".
Definition ann_at_gala : registration := mkRegistration "r-1" "u-1" "e-1" 10.

(** Ann is registered for the gala, which is therefore full; nobody is
    registered for the fair. *)
Definition booked : database :=
  mkDatabase [ann] [gala; fair] [ann_at_gala].

(** An event of the given capacity with the given number of attendees. *)
Definition attendee (i : nat) : user :=
  let k := Number.digits (Z.of_nat i) in
  mkUser ("v-" ++ k) ("Guest " ++ k) (k ++ "@example.org").
Definition seat (i : nat) : registration :=
  let k := Number.digits (Z.of_nat i) in
  mkRegistration ("s-" ++ k) ("v-" ++ k) "e-3" 10.
Definition expo (cap : Z) (total : nat) : database :=
  mkDatabase (map attendee (seq 0 total))
             [mkEvent "e-3" "Expo" 2000 "Dock" cap 0]
             (map seat (seq 0 total)).

(** A request served before the gala and the fair (time 1000) and one served
    after them (time 3000). *)
Definition early : world := mkWorld 1000 1000 "u-2" "r-2".
Definition late : world := mkWorld 3000 3000 "u-2" "r-2".
(** A request whose registration identifier collides with a stored one. *)
Definition clash : world := mkWorld 1000 1000 "u-2" "r-1".

End Sample.

(** ** Returning the new identifier *)

(** The response of a successful register request carries the identifier of
    the registration row the request added. *)
Definition returns_registration_id (eventId : uuid) (name email : string)
           (w : world) (d : database) : Prop :=
  let (r, d') := register eventId name email w d in
  status r = 201 ->
  exists row,
    In row (registrations d') /\ ~ In row (registrations d)
    /\ In (reg_id row) (strings_of (body r)).

(** ** Utilisation as the specification words it *)

(** How a value lying exactly halfway between two hundredths is rounded. *)
Inductive tie_rule : Type := HalfUp | HalfDown | HalfEven.

(** The exact percentage [100 * total / cap], in hundredths, rounded to the
    nearest integer. *)
Definition round_hundredths (rule : tie_rule) (total cap : Z) : Z :=
  let q := (10000 * total) / cap in
  let r := (10000 * total) mod cap in
  match 2 * r ?= cap with
  | Lt => q
  | Gt => q + 1
  | Eq => match rule with
          | HalfUp => q + 1
          | HalfDown => q
          | HalfEven => if Z.even q then q else q + 1
          end
  end.

(** The statistics of an event with [total] registrations and capacity
    [cap], with the given two-decimal rendering of the percentage. *)
Definition stats_json (total cap : Z) (percent : string) : response :=
  mkResponse 200 (VObj [("totalRegistrations", VNum total);
                        ("remainingCapacity", VNum (cap - total));
                        ("percentUsed", VStr percent)]).

(** The statistics of every stored event with a positive capacity show the
    exact percentage rounded to two decimals under the given rule. *)
Definition stats_as_specified (rule : tie_rule)
           (toString_large : spec_float -> string) : Prop :=
  forall d id ev,
    find_event d id = Some ev ->
    0 < event_capacity ev ->
    fst (Stats.getStats toString_large id d)
    = stats_json (registration_count d id) (event_capacity ev)
        (Number.fixed_digits 2
           (round_hundredths rule (registration_count d id)
                             (event_capacity ev))).

(** The percentage the stats handler computes: [(total / cap) * 100] in
    binary64, then [toFixed(2)]. *)
Definition percent_used (toString_large : spec_float -> string)
           (total cap : Z) : string :=
  Number.toFixed toString_large 2
    (Number.mul (Number.div (Number.of_Z total) (Number.of_Z cap))
                (Number.of_Z 100)).

(** ** Creating events *)

Module Directory.
Import Pg.

Definition check_violation (table constraint : string) : string :=
  "new row for relation " ++ quoted table
    ++ " violates check constraint " ++ quoted constraint.

Definition decimal (z : Z) : string :=
  if z <? 0 then "-" ++ Number.digits (- z) else Number.digits z.

Definition int_out_of_range (z : Z) : string :=
  "value " ++ quoted (decimal z) ++ " is out of range for type integer".

(** INSERT INTO events (title, datetime, location, capacity)
    VALUES ($1,$2,$3,$4) RETURNING id, with [id] the identifier and [now]
    the creation time the column defaults supply. The four parameters are
    bound in their order: the title must be text the database accepts,
    [datetime] is what the datetime column reads from the ISO string it is
    sent (the time value, or the message of its error), the location must
    be text the database accepts, and the capacity is read into an [int]
    column. Then the CHECK of the table is evaluated, then the primary
    key. *)
Definition insert_event (id : uuid) (now : timestamp) (title : string)
           (datetime : result timestamp) (location : string) (capacity : Z)
  : query uuid :=
  fun c =>
    let d := view c in
    if contains_nul title
    then (Thrown invalid_byte_sequence, c)
    else
      match datetime with
      | Thrown msg => (Thrown msg, c)
      | Ok t =>
          if contains_nul location
          then (Thrown invalid_byte_sequence, c)
          else if negb ((-2147483648 <=? capacity)
                        && (capacity <=? 2147483647))%bool
          then (Thrown (int_out_of_range capacity), c)
          else if negb ((0 <? capacity) && (capacity <=? 1000))%bool
          then (Thrown (check_violation "events" "events_capacity_check"), c)
          else if existsb (fun e => (event_id e =? id)%string) (events d)
          then (Thrown (unique_violation "events_pkey"), c)
          else (Ok id,
                write c (mkDatabase
                           (users d)
                           (events d ++ [mkEvent id title t location
                                                 capacity now])%list
                           (registrations d)))
      end.

(** [datetime = new Date(datetime).toISOString()]: the ISO string of the
    date, or the RangeError thrown for a date that is not valid. The ISO
    string is known by what the datetime column reads from it. *)
Definition toISOString (datetime : result (result timestamp))
  : query (result timestamp) :=
  fun c => (datetime, c).

(** POST /api/events, server.js lines 34-50. The validators in front of the
    handler (lines 25-33) let through only a title and a location that are
    not empty and a capacity that reads as an integer, which is how the
    arguments are typed; the range the validators impose on the capacity is
    not assumed, the table's own checks decide. *)
Definition create_event_handler (id : uuid) (now : timestamp)
           (title : string) (datetime : result (result timestamp))
           (location : string) (capacity : Z)
  : client -> response * client :=
  try_catch
    (datetime' <- toISOString datetime ;;
     q <- insert_event id now title datetime' location capacity ;;
     ret (mkResponse 201 (VObj [("eventId", VStr q)])))
    (fun err c => (error_json 500 err, c)).

End Directory.

Definition create_event (id : uuid) (now : timestamp) (title : string)
           (datetime : result (result timestamp)) (location : string)
           (capacity : Z)
  : database -> response * database :=
  serve (Directory.create_event_handler id now title datetime location
                                        capacity).

Definition event_created (id : uuid) : response :=
  mkResponse 201 (VObj [("eventId", VStr id)]).

Definition event_id_taken (d : database) (id : uuid) : bool :=
  existsb (fun e => (event_id e =? id)%string) (events d).

(** The database after an events row is added. *)
Definition with_event (d : database) (e : event) : database :=
  mkDatabase (users d) (events d ++ [e])%list (registrations d).

(** ** Every write route of the API *)

Inductive operation : Type :=
| CreateEvent (id : uuid) (now : timestamp) (title : string)
              (datetime : result (result timestamp)) (location : string)
              (capacity : Z)
| Serve (rq : request).

Definition perform (op : operation) (d : database) : response * database :=
  match op with
  | CreateEvent id now title datetime location capacity =>
      create_event id now title datetime location capacity d
  | Serve rq => handle rq d
  end.

Definition run_all (ops : list operation) (d : database) : database :=
  fold_left (fun d' op => snd (perform op d')) ops d.

(** The database right after init.sql. *)
Definition empty_db : database := mkDatabase [] [] [].

(** All the constraints init.sql declares. *)
Record schema_holds (d : database) : Prop := {
  holds_users_pkey : users_pkey d;
  holds_users_email_key : users_email_key d;
  holds_events_pkey : events_pkey d;
  holds_capacity_check : capacity_check d;
  holds_registrations_pkey : registrations_pkey d;
  holds_user_id_fkey : registrations_user_id_fkey d;
  holds_event_id_fkey : registrations_event_id_fkey d;
  holds_user_event_key : registrations_user_event_key d
}.

(** ** Proof automation for handler runs *)

Ltac norm :=
  cbn [fst snd committed txn users events registrations
       Datatypes.length Nat.ltb Nat.leb negb].

Ltac run_handler :=
  unfold try_catch, bind, ret, connect,
    Pg.BEGIN, Pg.ROLLBACK, Pg.COMMIT, Pg.select_event, Pg.count_registrations,
    Pg.select_user, Pg.insert_user, Pg.select_registration,
    Pg.insert_registration, Pg.delete_registration, view, write;
  norm.

(** Enters the register handler and passes the three guards on the event:
    found, not past, not full. *)
Ltac pass_guards H Hge Hroom :=
  unfold Server.register_handler; run_handler;
  rewrite H; rewrite (proj2 (Z.ltb_ge _ _) Hge); norm;
  let Hc := fresh "Hc" in
  match type of Hroom with
  | ?a < ?b =>
      assert ((a >=? b) = false) as Hc
        by (destruct (Z.geb_spec a b); [lia | reflexivity])
  end;
  unfold registration_count, on_event in Hc; rewrite Hc; norm.

(** ** Basic facts about result sets *)

Section ResultSets.
Context {A : Type}.
Variable p : A -> bool.

Lemma filter_nil_existsb (l : list A) :
  filter p l = [] <-> existsb p l = false.
Proof.
  induction l as [|a l IH]; simpl.
  - tauto.
  - destruct (p a); simpl.
    + split; discriminate.
    + exact IH.
Qed.

Lemma filter_cons_existsb (l : list A) (a : A) (rest : list A) :
  filter p l = a :: rest -> existsb p l = true.
Proof.
  intros H. destruct (existsb p l) eqn:E; [reflexivity|].
  apply filter_nil_existsb in E. congruence.
Qed.

Lemma filter_head_sat (l : list A) (a : A) (rest : list A) :
  filter p l = a :: rest -> p a = true /\ In a l.
Proof.
  intros H.
  assert (In a (filter p l)) as Hin by (rewrite H; left; reflexivity).
  apply filter_In in Hin. tauto.
Qed.

Lemma existsb_filter_cons (l : list A) :
  existsb p l = true -> exists a rest, filter p l = a :: rest.
Proof.
  intros H. destruct (filter p l) as [|a rest] eqn:E.
  - apply filter_nil_existsb in E. congruence.
  - now exists a, rest.
Qed.

Lemma existsb_snoc (l : list A) (a : A) :
  existsb p (l ++ [a]) = (existsb p l || p a)%bool.
Proof.
  rewrite existsb_app. simpl. now rewrite orb_false_r.
Qed.

Lemma filter_snoc (l : list A) (a : A) :
  filter p (l ++ [a]) = (filter p l ++ (if p a then [a] else []))%list.
Proof.
  rewrite filter_app. simpl. now destruct (p a).
Qed.
End ResultSets.

Lemma hd_error_filter_none {A : Type} (p : A -> bool) (l : list A) :
  hd_error (filter p l) = None -> filter p l = [].
Proof.
  destruct (filter p l); [reflexivity | discriminate].
Qed.

Lemma hd_error_filter_some {A : Type} (p : A -> bool) (l : list A) (a : A) :
  hd_error (filter p l) = Some a -> exists rest, filter p l = a :: rest.
Proof.
  destruct (filter p l) as [|b rest]; [discriminate|].
  simpl. intros [= ->]. now exists rest.
Qed.

(** ** The paths through the register transaction *)

Section RegisterPaths.
Variables (eventId : uuid) (name email : string) (w : world) (d : database).

Lemma register_event_missing :
  find_event d eventId = None ->
  Server.register_handler eventId name email w (connect d)
    = (event_not_found, connect d).
Proof.
  intros H. apply hd_error_filter_none in H.
  unfold Server.register_handler. run_handler.
  rewrite H. reflexivity.
Qed.

Lemma register_past (ev : event) :
  find_event d eventId = Some ev ->
  event_datetime ev < clock w ->
  Server.register_handler eventId name email w (connect d)
    = (past_event, connect d).
Proof.
  intros H Hlt. apply hd_error_filter_some in H as [rest H].
  unfold Server.register_handler. run_handler.
  rewrite H. apply Z.ltb_lt in Hlt. rewrite Hlt. reflexivity.
Qed.

Lemma register_full (ev : event) :
  find_event d eventId = Some ev ->
  clock w <= event_datetime ev ->
  event_capacity ev <= registration_count d eventId ->
  Server.register_handler eventId name email w (connect d)
    = (event_full, connect d).
Proof.
  intros H Hge Hfull. apply hd_error_filter_some in H as [rest H].
  unfold Server.register_handler. run_handler.
  rewrite H. apply Z.ltb_ge in Hge. rewrite Hge. norm.
  apply Z.geb_le in Hfull. unfold registration_count, on_event in Hfull.
  rewrite Hfull. reflexivity.
Qed.

Lemma register_known_user_ok (ev : event) (u : user) :
  find_event d eventId = Some ev ->
  clock w <= event_datetime ev ->
  registration_count d eventId < event_capacity ev ->
  find_user d email = Some u ->
  registered d (user_id u) eventId = false ->
  registration_id_taken d (registration_uuid w) = false ->
  Server.register_handler eventId name email w (connect d)
  = (registration_successful,
     connect (with_registration d w (user_id u) eventId)).
Proof.
  intros H Hge Hroom Hu Hdup Hid.
  apply hd_error_filter_some in H as [rest H].
  apply hd_error_filter_some in Hu as [urest Hu].
  pass_guards H Hge Hroom.
  rewrite Hu. norm.
  pose proof (filter_cons_existsb _ _ _ _ H) as Hev.
  destruct (filter_head_sat _ _ _ _ Hu) as [_ Hin].
  assert (user_id_taken d (user_id u) = true) as Hfk.
  { apply existsb_exists. exists u. split; [exact Hin | apply String.eqb_refl]. }
  unfold registered, on_pair in Hdup. pose proof Hdup as Hnil.
  apply filter_nil_existsb in Hnil. rewrite Hnil. norm.
  unfold registration_id_taken in Hid. rewrite Hid.
  unfold user_id_taken in Hfk. rewrite Hfk. rewrite Hev. rewrite Hdup.
  norm. reflexivity.
Qed.

Lemma register_known_user_duplicate (ev : event) (u : user) :
  find_event d eventId = Some ev ->
  clock w <= event_datetime ev ->
  registration_count d eventId < event_capacity ev ->
  find_user d email = Some u ->
  registered d (user_id u) eventId = true ->
  Server.register_handler eventId name email w (connect d)
    = (already_registered, connect d).
Proof.
  intros H Hge Hroom Hu Hdup.
  apply hd_error_filter_some in H as [rest H].
  apply hd_error_filter_some in Hu as [urest Hu].
  pass_guards H Hge Hroom.
  rewrite Hu. norm.
  unfold registered, on_pair in Hdup.
  apply existsb_filter_cons in Hdup as (r & rs & E).
  rewrite E. reflexivity.
Qed.

Lemma register_known_user_id_collision (ev : event) (u : user) :
  find_event d eventId = Some ev ->
  clock w <= event_datetime ev ->
  registration_count d eventId < event_capacity ev ->
  find_user d email = Some u ->
  registered d (user_id u) eventId = false ->
  registration_id_taken d (registration_uuid w) = true ->
  Server.register_handler eventId name email w (connect d)
  = (error_json 500 (Pg.unique_violation "registrations_pkey"), connect d).
Proof.
  intros H Hge Hroom Hu Hdup Hid.
  apply hd_error_filter_some in H as [rest H].
  apply hd_error_filter_some in Hu as [urest Hu].
  pass_guards H Hge Hroom.
  rewrite Hu. norm.
  unfold registered, on_pair in Hdup.
  apply filter_nil_existsb in Hdup. rewrite Hdup. norm.
  unfold registration_id_taken in Hid. rewrite Hid. reflexivity.
Qed.

Lemma register_new_user_bad_name (ev : event) :
  find_event d eventId = Some ev ->
  clock w <= event_datetime ev ->
  registration_count d eventId < event_capacity ev ->
  find_user d email = None ->
  Pg.contains_nul name = true ->
  Server.register_handler eventId name email w (connect d)
  = (error_json 500 Pg.invalid_byte_sequence, connect d).
Proof.
  intros H Hge Hroom Hu Hname.
  apply hd_error_filter_some in H as [rest H].
  apply hd_error_filter_none in Hu.
  pass_guards H Hge Hroom.
  rewrite Hu. norm. rewrite Hname. reflexivity.
Qed.

Lemma register_new_user_id_collision (ev : event) :
  find_event d eventId = Some ev ->
  clock w <= event_datetime ev ->
  registration_count d eventId < event_capacity ev ->
  find_user d email = None ->
  Pg.contains_nul name = false ->
  user_id_taken d (user_uuid w) = true ->
  Server.register_handler eventId name email w (connect d)
  = (error_json 500 (Pg.unique_violation "users_pkey"), connect d).
Proof.
  intros H Hge Hroom Hu Hname Hid.
  apply hd_error_filter_some in H as [rest H].
  apply hd_error_filter_none in Hu.
  pass_guards H Hge Hroom.
  rewrite Hu. norm. rewrite Hname.
  unfold user_id_taken in Hid. rewrite Hid. reflexivity.
Qed.

Lemma register_new_user_duplicate (ev : event) :
  find_event d eventId = Some ev ->
  clock w <= event_datetime ev ->
  registration_count d eventId < event_capacity ev ->
  find_user d email = None ->
  Pg.contains_nul name = false ->
  user_id_taken d (user_uuid w) = false ->
  registered d (user_uuid w) eventId = true ->
  Server.register_handler eventId name email w (connect d)
    = (already_registered, connect d).
Proof.
  intros H Hge Hroom Hu Hname Hid Hdup.
  apply hd_error_filter_some in H as [rest H].
  apply hd_error_filter_none in Hu.
  pass_guards H Hge Hroom.
  rewrite Hu. norm. rewrite Hname.
  unfold user_id_taken in Hid. rewrite Hid.
  apply filter_nil_existsb in Hu. rewrite Hu. norm.
  unfold registered, on_pair in Hdup.
  apply existsb_filter_cons in Hdup as (r & rs & E).
  rewrite E. reflexivity.
Qed.

Lemma register_new_user_reg_collision (ev : event) :
  find_event d eventId = Some ev ->
  clock w <= event_datetime ev ->
  registration_count d eventId < event_capacity ev ->
  find_user d email = None ->
  Pg.contains_nul name = false ->
  user_id_taken d (user_uuid w) = false ->
  registered d (user_uuid w) eventId = false ->
  registration_id_taken d (registration_uuid w) = true ->
  Server.register_handler eventId name email w (connect d)
  = (error_json 500 (Pg.unique_violation "registrations_pkey"), connect d).
Proof.
  intros H Hge Hroom Hu Hname Hid Hdup Hrid.
  apply hd_error_filter_some in H as [rest H].
  apply hd_error_filter_none in Hu.
  pass_guards H Hge Hroom.
  rewrite Hu. norm. rewrite Hname.
  unfold user_id_taken in Hid. rewrite Hid.
  apply filter_nil_existsb in Hu. rewrite Hu. norm.
  unfold registered, on_pair in Hdup.
  apply filter_nil_existsb in Hdup. rewrite Hdup. norm.
  unfold registration_id_taken in Hrid. rewrite Hrid. reflexivity.
Qed.

Lemma register_new_user_ok (ev : event) :
  find_event d eventId = Some ev ->
  clock w <= event_datetime ev ->
  registration_count d eventId < event_capacity ev ->
  find_user d email = None ->
  Pg.contains_nul name = false ->
  user_id_taken d (user_uuid w) = false ->
  registered d (user_uuid w) eventId = false ->
  registration_id_taken d (registration_uuid w) = false ->
  Server.register_handler eventId name email w (connect d)
  = (registration_successful,
     connect (with_registration (with_user d w name email) w
                                (user_uuid w) eventId)).
Proof.
  intros H Hge Hroom Hu Hname Hid Hdup Hrid.
  apply hd_error_filter_some in H as [rest H].
  apply hd_error_filter_none in Hu.
  pass_guards H Hge Hroom.
  rewrite Hu. norm. rewrite Hname.
  pose proof (filter_cons_existsb _ _ _ _ H) as Hev.
  unfold user_id_taken in Hid. rewrite Hid.
  apply filter_nil_existsb in Hu. rewrite Hu. norm.
  unfold registered, on_pair in Hdup. pose proof Hdup as Hnil.
  apply filter_nil_existsb in Hnil. rewrite Hnil. norm.
  unfold registration_id_taken in Hrid. rewrite Hrid.
  rewrite existsb_snoc, Hid. cbn [user_id orb]. rewrite String.eqb_refl.
  norm. rewrite Hev, Hdup. norm. reflexivity.
Qed.

End RegisterPaths.

(** ** The paths through the cancel transaction *)

Section CancelPaths.
Variables (eventId : uuid) (email : string) (d : database).

Lemma cancel_user_missing :
  find_user d email = None ->
  Server.cancel_handler eventId email (connect d)
    = (user_not_found, connect d).
Proof.
  intros Hu. apply hd_error_filter_none in Hu.
  unfold Server.cancel_handler. run_handler.
  rewrite Hu. reflexivity.
Qed.

Lemma cancel_not_registered (u : user) :
  find_user d email = Some u ->
  registered d (user_id u) eventId = false ->
  Server.cancel_handler eventId email (connect d)
    = (not_registered, connect d).
Proof.
  intros Hu Hreg. apply hd_error_filter_some in Hu as [rest Hu].
  unfold Server.cancel_handler. run_handler.
  rewrite Hu. norm.
  unfold registered, on_pair in Hreg.
  apply filter_nil_existsb in Hreg. rewrite Hreg. reflexivity.
Qed.

Lemma cancel_ok (u : user) :
  find_user d email = Some u ->
  registered d (user_id u) eventId = true ->
  Server.cancel_handler eventId email (connect d)
  = (registration_cancelled,
     connect (without_registration d (user_id u) eventId)).
Proof.
  intros Hu Hreg. apply hd_error_filter_some in Hu as [rest Hu].
  unfold Server.cancel_handler. run_handler.
  rewrite Hu. norm.
  unfold registered, on_pair in Hreg.
  apply existsb_filter_cons in Hreg as (r & rs & E).
  rewrite E. reflexivity.
Qed.
End CancelPaths.

(** ** The handlers against the ordered specification *)

Lemma register_handler_run (eventId : uuid) (name email : string)
      (w : world) (d : database) :
  Server.register_handler eventId name email w (connect d)
  = match register_spec eventId name email w d with
    | inl k => (error_response k, connect d)
    | inr d' => (registration_successful, connect d')
    end.
Proof.
  unfold register_spec, resolve_user.
  destruct (find_event d eventId) as [ev|] eqn:Hev;
    [| now apply register_event_missing].
  destruct (Z.ltb_spec (event_datetime ev) (clock w)) as [Hpast|Hnow];
    [now apply register_past with ev |].
  destruct (Z.leb_spec (event_capacity ev) (registration_count d eventId))
    as [Hfull|Hroom]; [now apply register_full with ev |].
  destruct (find_user d email) as [u|] eqn:Hu.
  - destruct (registered d (user_id u) eventId) eqn:Hdup;
      [now apply register_known_user_duplicate with ev u |].
    destruct (registration_id_taken d (registration_uuid w)) eqn:Hid.
    + now apply register_known_user_id_collision with ev u.
    + now apply register_known_user_ok with ev.
  - destruct (Pg.contains_nul name) eqn:Hname;
      [now apply register_new_user_bad_name with ev |].
    destruct (user_id_taken d (user_uuid w)) eqn:Hid;
      [now apply register_new_user_id_collision with ev |].
    change (registered (with_user d w name email) (user_uuid w) eventId)
      with (registered d (user_uuid w) eventId).
    change (registration_id_taken (with_user d w name email)
                                  (registration_uuid w))
      with (registration_id_taken d (registration_uuid w)).
    destruct (registered d (user_uuid w) eventId) eqn:Hdup;
      [now apply register_new_user_duplicate with ev |].
    destruct (registration_id_taken d (registration_uuid w)) eqn:Hrid.
    + now apply register_new_user_reg_collision with ev.
    + now apply register_new_user_ok with ev.
Qed.

Lemma cancel_handler_run (eventId : uuid) (email : string) (d : database) :
  Server.cancel_handler eventId email (connect d)
  = match find_user d email with
    | None => (user_not_found, connect d)
    | Some u =>
        if registered d (user_id u) eventId
        then (registration_cancelled,
              connect (without_registration d (user_id u) eventId))
        else (not_registered, connect d)
    end.
Proof.
  destruct (find_user d email) as [u|] eqn:Hu;
    [| now apply cancel_user_missing].
  destruct (registered d (user_id u) eventId) eqn:Hreg.
  - now apply cancel_ok.
  - now apply cancel_not_registered with u.
Qed.

Lemma register_run (eventId : uuid) (name email : string) (w : world)
      (d : database) :
  register eventId name email w d
  = match register_spec eventId name email w d with
    | inl k => (error_response k, d)
    | inr d' => (registration_successful, d')
    end.
Proof.
  unfold register, serve. rewrite register_handler_run.
  destruct (register_spec eventId name email w d); reflexivity.
Qed.

Lemma cancel_run (eventId : uuid) (email : string) (d : database) :
  cancel eventId email d
  = match find_user d email with
    | None => (user_not_found, d)
    | Some u =>
        if registered d (user_id u) eventId
        then (registration_cancelled,
              without_registration d (user_id u) eventId)
        else (not_registered, d)
    end.
Proof.
  unfold cancel, serve. rewrite cancel_handler_run.
  destruct (find_user d email) as [u|]; [| reflexivity].
  destruct (registered d (user_id u) eventId); reflexivity.
Qed.

(** ** Capacity *)

Lemma find_event_events (d d' : database) (eventId : uuid) :
  events d' = events d -> find_event d' eventId = find_event d eventId.
Proof.
  unfold find_event. now intros ->.
Qed.

Lemma length_filter_filter {A : Type} (p q : A -> bool) (l : list A) :
  (List.length (filter p (filter q l)) <= List.length (filter p l))%nat.
Proof.
  induction l as [|a l IH]; simpl; [lia|].
  destruct (q a); simpl; destruct (p a); simpl; lia.
Qed.

(** What a register request can do to the committed database: nothing, or
    add one registration for the event, and then only when the event had
    room. *)
Lemma register_effect (eventId : uuid) (name email : string) (w : world)
      (d : database) :
  snd (register eventId name email w d) = d
  \/ exists ev userId d1,
      find_event d eventId = Some ev
      /\ clock w <= event_datetime ev
      /\ registration_count d eventId < event_capacity ev
      /\ (d1 = d \/ (d1 = with_user d w name email /\ find_user d email = None))
      /\ In userId (map user_id (users d1))
      /\ fst (register eventId name email w d) = registration_successful
      /\ snd (register eventId name email w d)
         = with_registration d1 w userId eventId.
Proof.
  rewrite register_run. unfold register_spec, resolve_user.
  destruct (find_event d eventId) as [ev|]; [| now left].
  destruct (Z.ltb_spec (event_datetime ev) (clock w)); [now left |].
  destruct (Z.leb_spec (event_capacity ev) (registration_count d eventId));
    [now left |].
  destruct (find_user d email) as [u|] eqn:Hu.
  - destruct (registered d (user_id u) eventId); [now left |].
    destruct (registration_id_taken d (registration_uuid w)); [now left |].
    right. exists ev, (user_id u), d. cbn [fst snd].
    apply hd_error_filter_some in Hu as [rest Hu].
    apply filter_head_sat in Hu as [_ Hin].
    repeat split; auto. now apply in_map.
  - destruct (Pg.contains_nul name); [now left |].
    destruct (user_id_taken d (user_uuid w)); [now left |].
    destruct (registered _ _ _); [now left |].
    destruct (registration_id_taken _ _); [now left |].
    right. exists ev, (user_uuid w), (with_user d w name email).
    cbn [fst snd]. repeat split; auto.
    cbn [with_user users]. rewrite map_app. apply in_or_app. right.
    now left.
Qed.

Lemma register_within_capacity (eventId : uuid) (name email : string)
      (w : world) (d : database) :
  within_capacity d ->
  within_capacity (snd (register eventId name email w d)).
Proof.
  intros Hd.
  destruct (register_effect eventId name email w d)
    as [-> | (ev & userId & d1 & Hev & _ & Hroom & Hd1 & _ & _ & ->)];
    [exact Hd |].
  assert (events d1 = events d /\ registrations d1 = registrations d)
    as [He Hr] by (destruct Hd1 as [-> | [-> _]]; split; reflexivity).
  intros id ev0 H0.
  rewrite (find_event_events d) in H0 by (cbn; exact He).
  unfold registration_count, with_registration. cbn [registrations].
  rewrite Hr, filter_snoc, length_app. unfold on_event at 2.
  cbn [reg_event_id].
  destruct (String.eqb_spec eventId id) as [<- | Hne]; cbn [List.length].
  - rewrite Hev in H0. injection H0 as <-.
    unfold registration_count in Hroom. lia.
  - specialize (Hd id ev0 H0). unfold registration_count in Hd. lia.
Qed.

Lemma cancel_within_capacity (eventId : uuid) (email : string)
      (d : database) :
  within_capacity d -> within_capacity (snd (cancel eventId email d)).
Proof.
  intros Hd. rewrite cancel_run.
  destruct (find_user d email) as [u|]; [| exact Hd].
  destruct (registered d (user_id u) eventId); [| exact Hd].
  cbn [snd]. intros id ev0 H0.
  rewrite (find_event_events d) in H0 by reflexivity.
  specialize (Hd id ev0 H0).
  unfold registration_count, without_registration in *. cbn [registrations].
  pose proof (length_filter_filter (on_event id)
                (fun r => negb (on_pair (user_id u) eventId r))
                (registrations d)).
  lia.
Qed.

Lemma run_within_capacity (rqs : list request) :
  forall d, within_capacity d -> within_capacity (run rqs d).
Proof.
  induction rqs as [|rq rqs IH]; intros d Hd; [exact Hd |].
  cbn [run fold_left]. apply IH.
  destruct rq as [eventId name email w | eventId email]; cbn [handle].
  - now apply register_within_capacity.
  - now apply cancel_within_capacity.
Qed.

(** C1 (as amended). Starting from a database in which no event holds more
    registrations than its capacity, no sequence of register and cancel
    requests, served one transaction after the other, leads to a database in
    which some event does. A register request for an event whose
    registration count has reached its capacity commits nothing; it is
    answered "Event is full" when the event is not past, and "Cannot
    register for past event" when it is. *)
Theorem capacity_never_exceeded (d : database) :
  within_capacity d ->
  (forall rqs, within_capacity (run rqs d))
  /\ (forall rqs eventId name email w ev,
         find_event (run rqs d) eventId = Some ev ->
         event_capacity ev <= registration_count (run rqs d) eventId ->
         snd (register eventId name email w (run rqs d)) = run rqs d
         /\ (clock w <= event_datetime ev ->
             fst (register eventId name email w (run rqs d)) = event_full)
         /\ (event_datetime ev < clock w ->
             fst (register eventId name email w (run rqs d)) = past_event)).
Proof.
  intros Hd. split.
  - intros rqs. now apply run_within_capacity.
  - intros rqs eventId name email w ev Hev Hfull.
    repeat split.
    + destruct (Z.lt_ge_cases (event_datetime ev) (clock w)).
      * unfold register, serve; now rewrite (register_past _ _ _ _ _ ev).
      * unfold register, serve; now rewrite (register_full _ _ _ _ _ ev).
    + intros Hnow. unfold register, serve.
      now rewrite (register_full _ _ _ _ _ ev).
    + intros Hpast. unfold register, serve.
      now rewrite (register_past _ _ _ _ _ ev).
Qed.

Lemma within_capacity_booked : within_capacity Sample.booked.
Proof.
  intros id ev H. unfold find_event in H.
  cbn [Sample.booked events filter Sample.gala Sample.fair event_id] in H.
  destruct (String.eqb_spec "e-1" id) as [<- | _];
    [injection H as <-; vm_compute; discriminate |].
  destruct (String.eqb_spec "e-2" id) as [<- | _];
    [injection H as <-; vm_compute; discriminate |].
  discriminate.
Qed.

Lemma capacity_never_exceeded_witness :
  within_capacity
    (run [Cancel "e-1" "ann@example.org";
          Register "e-1" "Bob" "bob@example.org" Sample.early;
          Register "e-1" "Ann" "ann@example.org" Sample.early]
         Sample.booked)
  /\ fst (register "e-1" "Cy" "cy@example.org" Sample.early Sample.booked)
     = event_full.
Proof.
  destruct (capacity_never_exceeded Sample.booked within_capacity_booked)
    as [Hinv Hfull].
  split.
  - apply Hinv.
  - apply (Hfull [] "e-1" "Cy" "cy@example.org" Sample.early Sample.gala).
    + reflexivity.
    + vm_compute. discriminate.
    + vm_compute. discriminate.
Defined.

(** C1 (as stated) fails for an event that is both full and past: the time
    check comes first, so the request is answered "Cannot register for past
    event", not "Event is full". *)
Lemma full_past_event_not_reported_full :
  find_event Sample.booked "e-1" = Some Sample.gala
  /\ event_capacity Sample.gala <= registration_count Sample.booked "e-1"
  /\ fst (register "e-1" "Bob" "bob@example.org" Sample.late Sample.booked)
     = past_event
  /\ fst (register "e-1" "Bob" "bob@example.org" Sample.late Sample.booked)
     <> event_full.
Proof.
  split; [reflexivity |].
  split; [vm_compute; discriminate |].
  split; [reflexivity |].
  vm_compute. discriminate.
Qed.

(** ** Order of the checks *)

(** C2. The register handler, run on a connection from the pool, agrees
    with the ordered specification on every input: NotFound, then
    EventExpired, then CapacityExceeded, then the resolution of the user by
    email (creating one if absent), then DuplicateRegistration, and the
    insertion only after all of them. Each check decides the response
    whatever the later ones would have said, and the request ends there:
    the connection comes back with its transaction rolled back, no
    transaction open and the committed database as it was. *)
Theorem register_checks_in_order (eventId : uuid) (name email : string)
        (w : world) (d : database) :
  Server.register_handler eventId name email w (connect d)
  = match register_spec eventId name email w d with
    | inl k => (error_response k, connect d)
    | inr d' => (registration_successful, connect d')
    end
  /\ (find_event d eventId = None ->
      Server.register_handler eventId name email w (connect d)
      = (error_response NotFound, connect d))
  /\ (forall ev,
         find_event d eventId = Some ev ->
         event_datetime ev < clock w ->
         Server.register_handler eventId name email w (connect d)
         = (error_response EventExpired, connect d))
  /\ (forall ev,
         find_event d eventId = Some ev ->
         clock w <= event_datetime ev ->
         event_capacity ev <= registration_count d eventId ->
         Server.register_handler eventId name email w (connect d)
         = (error_response CapacityExceeded, connect d))
  /\ (forall ev u,
         find_event d eventId = Some ev ->
         clock w <= event_datetime ev ->
         registration_count d eventId < event_capacity ev ->
         find_user d email = Some u ->
         registered d (user_id u) eventId = true ->
         Server.register_handler eventId name email w (connect d)
         = (error_response DuplicateRegistration, connect d)).
Proof.
  split; [apply register_handler_run |].
  split; [apply register_event_missing |].
  split; [apply register_past |].
  split; [apply register_full |].
  apply register_known_user_duplicate.
Qed.

Lemma register_checks_in_order_witness :
  Server.register_handler "e-1" "Ann" "ann@example.org" Sample.late
                          (connect Sample.booked)
  = (error_response EventExpired, connect Sample.booked)
  /\ Server.register_handler "e-1" "Ann" "ann@example.org" Sample.early
                             (connect Sample.booked)
     = (error_response CapacityExceeded, connect Sample.booked).
Proof.
  split.
  - apply (proj1 (proj2 (proj2
             (register_checks_in_order "e-1" "Ann" "ann@example.org"
                                       Sample.late Sample.booked)))
             Sample.gala).
    + reflexivity.
    + reflexivity.
  - apply (proj1 (proj2 (proj2 (proj2
             (register_checks_in_order "e-1" "Ann" "ann@example.org"
                                       Sample.early Sample.booked))))
             Sample.gala).
    + reflexivity.
    + vm_compute. discriminate.
    + vm_compute. discriminate.
Defined.

(** ** Atomicity *)

Lemma register_status_201 (eventId : uuid) (name email : string) (w : world)
      (d : database) :
  status (fst (register eventId name email w d)) = 201 ->
  exists d', register_spec eventId name email w d = inr d'
             /\ register eventId name email w d = (registration_successful, d').
Proof.
  rewrite register_run.
  destruct (register_spec eventId name email w d) as [k | d'].
  - destruct k; cbn; discriminate.
  - intros _. now exists d'.
Qed.

(** C3. A register request that is not answered with the success message
    (event not found, past event, event full, already registered, or a
    storage error) leaves the committed database exactly as it was: no
    registration row and no user row of the failed attempt survives. The
    connection goes back to the pool with its transaction rolled back. *)
Theorem register_atomic (eventId : uuid) (name email : string) (w : world)
        (d : database) :
  fst (register eventId name email w d) <> registration_successful ->
  snd (register eventId name email w d) = d
  /\ snd (Server.register_handler eventId name email w (connect d))
     = connect d.
Proof.
  unfold register, serve. rewrite register_handler_run.
  destruct (register_spec eventId name email w d) as [k | d']; cbn [fst snd].
  - split; reflexivity.
  - intros H. now contradiction H.
Qed.

(** A new attendee whose registration row cannot be stored: the user row
    inserted earlier in the transaction is rolled back with it. *)
Lemma register_atomic_witness :
  fst (register "e-2" "Bob" "bob@example.org" Sample.clash Sample.booked)
  = error_json 500 (Pg.unique_violation "registrations_pkey")
  /\ snd (register "e-2" "Bob" "bob@example.org" Sample.clash Sample.booked)
     = Sample.booked.
Proof.
  split; [reflexivity |].
  apply (register_atomic "e-2" "Bob" "bob@example.org" Sample.clash
                         Sample.booked).
  vm_compute. discriminate.
Defined.

(** ** What a successful registration returns *)

(** C5 (as stated) fails: Bob's successful registration for the fair adds
    the row with identifier r-2, and the response carries only the message
    text. *)
Lemma register_does_not_return_id :
  ~ returns_registration_id "e-2" "Bob" "bob@example.org"
                            Sample.early Sample.booked.
Proof.
  unfold returns_registration_id.
  change (register "e-2" "Bob" "bob@example.org" Sample.early Sample.booked)
    with (registration_successful,
          with_registration
            (with_user Sample.booked Sample.early "Bob" "bob@example.org")
            Sample.early "u-2" "e-2").
  intros H. destruct (H eq_refl) as (row & Hin & Hold & Hid).
  cbn in Hid. destruct Hid as [Hid | []].
  cbn in Hin. destruct Hin as [<- | [<- | []]]; cbn in Hid; discriminate.
Qed.

(** C5 (as amended). A register request answered with status 201 returns
    the fixed message "Registration successful" and nothing else; the
    registration row it committed, the last of the table, has the
    identifier the database drew for it. *)
Theorem register_success_response (eventId : uuid) (name email : string)
        (w : world) (d : database) :
  status (fst (register eventId name email w d)) = 201 ->
  fst (register eventId name email w d)
  = mkResponse 201 (VObj [("message", VStr "Registration successful")])
  /\ exists userId,
      registrations (snd (register eventId name email w d))
      = (registrations d
           ++ [mkRegistration (registration_uuid w) userId eventId
                              (db_clock w)])%list.
Proof.
  intros H.
  destruct (register_effect eventId name email w d)
    as [Hsame | (ev & userId & d1 & _ & _ & _ & Hd1 & _ & Hok & Hdb)].
  - apply register_status_201 in H as (d' & Hspec & Hrun).
    split; [now rewrite Hrun |].
    exfalso. revert Hspec Hsame. rewrite Hrun. cbn [snd]. intros Hspec ->.
    unfold register_spec, resolve_user in Hspec.
    destruct (find_event d eventId); [| discriminate].
    destruct (_ <? _); [discriminate |].
    destruct (_ <=? _); [discriminate |].
    destruct (find_user d email).
    + destruct (registered _ _ _); [discriminate |].
      destruct (registration_id_taken _ _); [discriminate |].
      injection Hspec as Hspec.
      apply (f_equal (fun x => List.length (registrations x))) in Hspec.
      cbn in Hspec. rewrite length_app in Hspec. cbn in Hspec. lia.
    + destruct (Pg.contains_nul name); [discriminate |].
      destruct (user_id_taken _ _); [discriminate |].
      destruct (registered _ _ _); [discriminate |].
      destruct (registration_id_taken _ _); [discriminate |].
      injection Hspec as Hspec.
      apply (f_equal (fun x => List.length (registrations x))) in Hspec.
      cbn in Hspec. rewrite length_app in Hspec. cbn in Hspec. lia.
  - split; [exact Hok |].
    exists userId. rewrite Hdb.
    destruct Hd1 as [-> | [-> _]]; reflexivity.
Qed.

Lemma register_success_response_witness :
  fst (register "e-2" "Bob" "bob@example.org" Sample.early Sample.booked)
  = mkResponse 201 (VObj [("message", VStr "Registration successful")])
  /\ exists userId,
      registrations
        (snd (register "e-2" "Bob" "bob@example.org" Sample.early
                       Sample.booked))
      = (registrations Sample.booked
           ++ [mkRegistration "r-2" userId "e-2" 1000])%list.
Proof.
  apply (register_success_response "e-2" "Bob" "bob@example.org"
                                   Sample.early Sample.booked).
  reflexivity.
Defined.

(** ** Users are only ever added *)

(** C9. A register request never rewrites a stored user: the users table
    afterwards is the table before, row for row, followed by at most the
    row of a newly created user; and when the email already belongs to a
    stored user the table is unchanged, whatever name the request gives. *)
Theorem register_keeps_user_names (eventId : uuid) (name email : string)
        (w : world) (d : database) :
  (exists added,
      users (snd (register eventId name email w d))
      = (users d ++ added)%list
      /\ forall u, In u added -> find_user d email = None)
  /\ (forall u,
         find_user d email = Some u ->
         users (snd (register eventId name email w d)) = users d).
Proof.
  destruct (register_effect eventId name email w d)
    as [-> | (ev & userId & d1 & _ & _ & _ & Hd1 & _ & _ & ->)].
  - split; [| reflexivity].
    exists []. split; [now rewrite app_nil_r | intros u []].
  - destruct Hd1 as [-> | [-> Hnone]]; cbn [users with_registration with_user].
    + split; [| reflexivity].
      exists []. split; [now rewrite app_nil_r | intros u []].
    + split.
      * exists [mkUser (user_uuid w) name email]. now split.
      * intros u Hu. congruence.
Qed.

Lemma register_keeps_user_names_witness :
  users (snd (register "e-2" "Annabel" "ann@example.org" Sample.early
                       Sample.booked))
  = [Sample.ann].
Proof.
  apply (proj2 (register_keeps_user_names "e-2" "Annabel" "ann@example.org"
                                          Sample.early Sample.booked)
               Sample.ann).
  reflexivity.
Defined.

(** ** A newly created user is never a duplicate *)

(** The foreign key of registrations on users is kept by every register
    and cancel request. *)
Lemma register_keeps_user_fkey (eventId : uuid) (name email : string)
      (w : world) (d : database) :
  registrations_user_id_fkey d ->
  registrations_user_id_fkey (snd (register eventId name email w d)).
Proof.
  intros Hfk.
  destruct (register_effect eventId name email w d)
    as [-> | (ev & userId & d1 & _ & _ & _ & Hd1 & Hin & _ & ->)];
    [exact Hfk |].
  intros r Hr. cbn [with_registration registrations users] in *.
  apply in_app_or in Hr as [Hr | [<- | []]]; [| exact Hin].
  destruct Hd1 as [-> | [-> _]].
  - now apply Hfk.
  - cbn [with_user users registrations] in *.
    rewrite map_app. apply in_or_app. left. now apply Hfk.
Qed.

Lemma cancel_keeps_user_fkey (eventId : uuid) (email : string)
      (d : database) :
  registrations_user_id_fkey d ->
  registrations_user_id_fkey (snd (cancel eventId email d)).
Proof.
  intros Hfk. rewrite cancel_run.
  destruct (find_user d email) as [u|]; [| exact Hfk].
  destruct (registered d (user_id u) eventId); [| exact Hfk].
  intros r Hr. cbn [snd without_registration registrations users] in *.
  apply filter_In in Hr as [Hr _]. now apply Hfk.
Qed.

Lemma run_keeps_user_fkey (rqs : list request) :
  forall d, registrations_user_id_fkey d ->
            registrations_user_id_fkey (run rqs d).
Proof.
  induction rqs as [|rq rqs IH]; intros d Hd; [exact Hd |].
  cbn [run fold_left]. apply IH.
  destruct rq as [eventId name email w | eventId email]; cbn [handle].
  - now apply register_keeps_user_fkey.
  - now apply cancel_keeps_user_fkey.
Qed.

(** C10. In a database that satisfies the foreign key of registrations on
    users, a register request whose email matches no stored user is never
    answered "Already registered". *)
Theorem new_user_never_duplicate (eventId : uuid) (name email : string)
        (w : world) (d : database) :
  registrations_user_id_fkey d ->
  find_user d email = None ->
  fst (register eventId name email w d)
  <> error_response DuplicateRegistration.
Proof.
  intros Hfk Hu. rewrite register_run.
  unfold register_spec, resolve_user. rewrite Hu.
  destruct (find_event d eventId) as [ev|]; [| cbn; discriminate].
  destruct (_ <? _); [cbn; discriminate |].
  destruct (_ <=? _); [cbn; discriminate |].
  destruct (Pg.contains_nul name); [cbn; discriminate |].
  destruct (user_id_taken d (user_uuid w)) eqn:Hid; [cbn; discriminate |].
  destruct (registered _ _ _) eqn:Hdup.
  - exfalso.
    change (registered d (user_uuid w) eventId = true) in Hdup.
    apply existsb_exists in Hdup as (r & Hin & Hr).
    apply andb_prop in Hr as [Hr _]. apply String.eqb_eq in Hr.
    specialize (Hfk r Hin). rewrite Hr in Hfk.
    apply in_map_iff in Hfk as (u & Hid' & Hin').
    assert (user_id_taken d (user_uuid w) = true); [| congruence].
    apply existsb_exists. exists u. split; [exact Hin' |].
    now apply String.eqb_eq.
  - destruct (registration_id_taken _ _); cbn; discriminate.
Qed.

Lemma registrations_user_id_fkey_booked :
  registrations_user_id_fkey Sample.booked.
Proof.
  intros r [<- | []]. left. reflexivity.
Qed.

Lemma new_user_never_duplicate_witness :
  fst (register "e-2" "Bob" "bob@example.org" Sample.early Sample.booked)
  <> error_response DuplicateRegistration.
Proof.
  apply (new_user_never_duplicate "e-2" "Bob" "bob@example.org" Sample.early
                                  Sample.booked).
  - exact registrations_user_id_fkey_booked.
  - reflexivity.
Defined.

(** ** Cancellation *)

Lemma registered_without (d : database) (userId eventId : uuid) :
  registered (without_registration d userId eventId) userId eventId = false.
Proof.
  unfold registered, without_registration. cbn [registrations].
  apply filter_nil_existsb.
  induction (registrations d) as [|r l IH]; [reflexivity |].
  cbn [filter]. destruct (on_pair userId eventId r) eqn:E; cbn [negb filter].
  - exact IH.
  - now rewrite E.
Qed.

(** C4. A cancel request is answered "User not found" (404) exactly when no
    stored user has the email, "User not registered for this event" exactly
    when the user exists and holds no registration for the event, and
    "Registration cancelled" otherwise, in which case the user's
    registration for the event is deleted. Neither the capacity nor the
    scheduled time of the event is consulted: a registration for a past
    event is cancelled like any other. *)
Theorem cancel_outcomes (eventId : uuid) (email : string) (d : database) :
  (fst (cancel eventId email d) = user_not_found
   <-> find_user d email = None)
  /\ (fst (cancel eventId email d) = not_registered
      <-> exists u, find_user d email = Some u
                    /\ registered d (user_id u) eventId = false)
  /\ (fst (cancel eventId email d) = registration_cancelled
      <-> exists u, find_user d email = Some u
                    /\ registered d (user_id u) eventId = true)
  /\ (forall u,
         find_user d email = Some u ->
         registered d (user_id u) eventId = true ->
         snd (cancel eventId email d)
         = without_registration d (user_id u) eventId
         /\ registered (snd (cancel eventId email d)) (user_id u) eventId
            = false)
  /\ (fst (cancel eventId email d) <> registration_cancelled ->
      snd (cancel eventId email d) = d)
  /\ (forall u ev (w : world),
         find_user d email = Some u ->
         registered d (user_id u) eventId = true ->
         find_event d eventId = Some ev ->
         event_datetime ev < clock w ->
         fst (cancel eventId email d) = registration_cancelled).
Proof.
  rewrite cancel_run.
  destruct (find_user d email) as [u|] eqn:Hu;
    [destruct (registered d (user_id u) eventId) eqn:Hreg |];
    cbn [fst snd].
  - split; [split; discriminate |].
    split; [split; [discriminate | intros (u' & Hu' & Hreg'); congruence] |].
    split; [split; [intros _; now exists u | reflexivity] |].
    split; [intros u' [= <-] _; split;
            [reflexivity | apply registered_without] |].
    split; [intros H; now contradiction H | reflexivity].
  - split; [split; discriminate |].
    split; [split; [intros _; now exists u | reflexivity] |].
    split; [split; [discriminate | intros (u' & Hu' & Hreg'); congruence] |].
    split; [intros u' [= <-]; congruence |].
    split; [reflexivity | intros u' ev w [= <-]; congruence].
  - split; [split; reflexivity |].
    split; [split; [discriminate | intros (u' & Hu' & _); discriminate] |].
    split; [split; [discriminate | intros (u' & Hu' & _); discriminate] |].
    split; [discriminate |].
    split; [reflexivity | discriminate].
Qed.

(** Ann cancels her registration for the gala after the gala took place. *)
Lemma cancel_outcomes_witness :
  event_datetime Sample.gala < clock Sample.late
  /\ cancel "e-1" "ann@example.org" Sample.booked
     = (registration_cancelled,
        mkDatabase [Sample.ann] [Sample.gala; Sample.fair] []).
Proof.
  split; [reflexivity |].
  pose proof (cancel_outcomes "e-1" "ann@example.org" Sample.booked)
    as (_ & _ & _ & Hdel & _ & Hpast).
  rewrite (surjective_pairing (cancel _ _ _)).
  rewrite (Hpast Sample.ann Sample.gala Sample.late) by reflexivity.
  destruct (Hdel Sample.ann) as [-> _]; reflexivity.
Defined.

(** C7. When the user with the given email holds a registration for the
    event, the cancellation succeeds and a following registration with the
    same email is never answered "Already registered", provided the event
    exists, is not past and has room after the cancellation; it succeeds
    whenever the identifier the database draws for the new row is unused
    (the only other outcome is the storage error of a colliding
    identifier). *)
Theorem cancel_then_register (eventId : uuid) (name email : string)
        (w : world) (d : database) (u : user) (ev : event) :
  find_user d email = Some u ->
  registered d (user_id u) eventId = true ->
  find_event d eventId = Some ev ->
  clock w <= event_datetime ev ->
  registration_count (snd (cancel eventId email d)) eventId
  < event_capacity ev ->
  fst (cancel eventId email d) = registration_cancelled
  /\ fst (register eventId name email w (snd (cancel eventId email d)))
     <> error_response DuplicateRegistration
  /\ (registration_id_taken (snd (cancel eventId email d))
                            (registration_uuid w) = false ->
      fst (register eventId name email w (snd (cancel eventId email d)))
      = registration_successful
      /\ registered
           (snd (register eventId name email w
                          (snd (cancel eventId email d))))
           (user_id u) eventId = true).
Proof.
  intros Hu Hreg Hev Hnow.
  assert (cancel eventId email d
          = (registration_cancelled,
             without_registration d (user_id u) eventId)) as Ec
      by (unfold cancel, serve;
          now rewrite (cancel_ok eventId email d u Hu Hreg)).
  rewrite Ec. cbn [fst snd]. intros Hroom. split; [reflexivity |].
  set (d1 := without_registration d (user_id u) eventId) in *.
  assert (registered d1 (user_id u) eventId = false) as Hgone
      by apply registered_without.
  destruct (registration_id_taken d1 (registration_uuid w)) eqn:Hid.
  - split; [| discriminate].
    unfold register, serve.
    rewrite (register_known_user_id_collision eventId name email w d1 ev u);
      try assumption.
    cbn. discriminate.
  - assert (register eventId name email w d1
            = (registration_successful,
               with_registration d1 w (user_id u) eventId)) as Er.
    { unfold register, serve.
      now rewrite (register_known_user_ok eventId name email w d1 ev u). }
    rewrite Er. cbn [fst snd].
    split; [discriminate |]. intros _. split; [reflexivity |].
    unfold registered, with_registration. cbn [registrations].
    rewrite existsb_snoc. unfold on_pair at 2.
    cbn [reg_user_id reg_event_id].
    rewrite !String.eqb_refl. apply orb_true_r.
Qed.

Lemma cancel_then_register_witness :
  fst (cancel "e-1" "ann@example.org" Sample.booked) = registration_cancelled
  /\ fst (register "e-1" "Ann" "ann@example.org" Sample.early
                   (snd (cancel "e-1" "ann@example.org" Sample.booked)))
     = registration_successful.
Proof.
  destruct (cancel_then_register "e-1" "Ann" "ann@example.org" Sample.early
                                 Sample.booked Sample.ann Sample.gala)
    as (Hc & _ & Hr); try reflexivity.
  - vm_compute. discriminate.
  - split; [exact Hc |]. now apply Hr.
Defined.

(** ** Reading events *)

Lemma updated_at_undeclared :
  find (fun col => negb (existsb (String.eqb col) events_columns))
       Server.event_select_list
  = Some "updated_at".
Proof. reflexivity. Qed.

(** With the columns the table declares, the lookup by identifier answers
    the stored row, or 404 when there is none. *)
Lemma select_declared_columns (rows : database -> list event) (c : client) :
  Pg.select_event_columns events_columns rows c
  = (Ok (map (Pg.project_event events_columns) (rows (view c))), c).
Proof. reflexivity. Qed.

(** C8 (code defect). Both read routes select the column [updated_at],
    which the events table of init.sql does not declare: on every database
    and for every identifier the statement is rejected, and the routes
    answer status 500 with the database's error message instead of the
    event, the 404, or the ordered list. *)
Theorem get_and_list_fail (d : database) (id : uuid) :
  get_event id d = (error_json 500 (Pg.undefined_column "updated_at"), d)
  /\ list_events d = (error_json 500 (Pg.undefined_column "updated_at"), d).
Proof.
  unfold get_event, list_events, serve, Server.get_event_handler,
    Server.list_events_handler, try_catch, bind, Pg.select_event_columns.
  rewrite updated_at_undeclared. split; reflexivity.
Qed.

(** ** Binary64 arithmetic on normal numbers *)

(** *** Integer inequalities behind the error bounds *)

Lemma quotient_bounds (m1 m2 q r : Z) :
  2 ^ 52 <= m1 < 2 ^ 53 -> 2 ^ 52 <= m2 < 2 ^ 53 ->
  m1 * 2 ^ 53 = m2 * q + r -> 0 <= r < m2 ->
  2 ^ 52 <= q < 2 ^ 54.
Proof.
  intros H1 H2 Hq Hr. split.
  - destruct (Z.le_gt_cases (2 ^ 52) q) as [|Hlt]; [assumption | exfalso].
    assert (m2 * (q + 1) <= m2 * 2 ^ 52) as H
        by (apply Z.mul_le_mono_nonneg_l; lia).
    assert (2 ^ 52 * 2 ^ 53 <= m1 * 2 ^ 53) as H'
        by (apply Z.mul_le_mono_nonneg_r; lia).
    assert (m2 * 2 ^ 52 < 2 ^ 53 * 2 ^ 52) as H''
        by (apply Z.mul_lt_mono_pos_r; lia).
    replace (m2 * (q + 1)) with (m2 * q + m2) in H by ring. lia.
  - destruct (Z.lt_ge_cases q (2 ^ 54)) as [|Hge]; [assumption | exfalso].
    assert (2 ^ 52 * 2 ^ 54 <= m2 * q) as H.
    { transitivity (m2 * 2 ^ 54).
      - apply Z.mul_le_mono_nonneg_r; lia.
      - apply Z.mul_le_mono_nonneg_l; lia. }
    assert (m1 * 2 ^ 53 < 2 ^ 53 * 2 ^ 53) as H'
        by (apply Z.mul_lt_mono_pos_r; lia).
    change (2 ^ 52 * 2 ^ 54) with (2 ^ 53 * 2 ^ 53) in H. lia.
Qed.

Lemma quotient_rounded (m1 m2 q r MQ K T : Z) :
  0 < m2 -> 0 < K ->
  m1 * T = m2 * q + r -> 0 <= r < m2 ->
  q - K < MQ * K <= q + K ->
  MQ * K * m2 <= m1 * T + K * m2 /\ m1 * T - K * m2 < MQ * K * m2.
Proof.
  intros Hm2 HK Hq Hr Hv.
  assert (MQ * K * m2 <= (q + K) * m2) as U
      by (apply Z.mul_le_mono_nonneg_r; lia).
  assert ((q - K + 1) * m2 <= MQ * K * m2) as L
      by (apply Z.mul_le_mono_nonneg_r; lia).
  replace ((q + K) * m2) with (m2 * q + K * m2) in U by ring.
  replace ((q - K + 1) * m2) with (m2 * q + m2 - K * m2) in L by ring.
  lia.
Qed.

(** The rounded quotient [MQ / J] against the exact [t / c]. *)
Lemma quotient_units (t c MQ K A1 A2 J T : Z) :
  0 < K -> 0 < A2 ->
  J * K * A2 = A1 * T ->
  MQ * K * (c * A2) <= t * A1 * T + K * (c * A2) ->
  t * A1 * T - K * (c * A2) < MQ * K * (c * A2) ->
  J * t - c < MQ * c <= J * t + c.
Proof.
  intros HK HA2 HJ Hu Hl.
  assert (0 < K * A2) as HW by (apply Z.mul_pos_pos; assumption).
  assert (MQ * K * (c * A2) = K * A2 * (MQ * c)) as E1 by ring.
  assert (t * A1 * T + K * (c * A2) = K * A2 * (J * t + c)) as E2.
  { transitivity (J * K * A2 * t + K * (c * A2)); [rewrite HJ | ]; ring. }
  assert (t * A1 * T - K * (c * A2) = K * A2 * (J * t - c)) as E3.
  { transitivity (J * K * A2 * t - K * (c * A2)); [rewrite HJ | ]; ring. }
  rewrite E1, E2 in Hu. rewrite E1, E3 in Hl.
  apply Z.mul_le_mono_pos_l in Hu; [| exact HW].
  apply Z.mul_lt_mono_pos_l in Hl; [| exact HW].
  split; assumption.
Qed.

(** The rounded product [MX / B] against the exact [100 * t / c], where
    [J = B * G]. *)
Lemma product_units (t c MQ MX B G : Z) :
  0 < c -> 0 < G ->
  B * G * t - c < MQ * c <= B * G * t + c ->
  100 * MQ - G < MX * G <= 100 * MQ + G ->
  G * (100 * (B * t)) - (100 + G) * c < G * (MX * c)
  <= G * (100 * (B * t)) + (100 + G) * c.
Proof.
  intros Hc HG HQ HX.
  assert (MX * G * c <= (100 * MQ + G) * c) as U
      by (apply Z.mul_le_mono_nonneg_r; lia).
  assert ((100 * MQ - G) * c < MX * G * c) as L
      by (apply Z.mul_lt_mono_pos_r; lia).
  replace (G * (MX * c)) with (MX * G * c) by ring.
  replace (G * (100 * (B * t))) with (100 * (B * G * t)) by ring.
  replace ((100 * MQ + G) * c) with (100 * (MQ * c) + G * c) in U by ring.
  replace ((100 * MQ - G) * c) with (100 * (MQ * c) - G * c) in L by ring.
  replace ((100 + G) * c) with (100 * c + G * c) by ring.
  lia.
Qed.

(** The nearest number of hundredths [n] to [MX / B] against the exact
    percentage. *)
Lemma hundredths_units (t c MX n B G E : Z) :
  0 < c -> 0 < G -> 0 < B ->
  2 * B * n <= 200 * MX + B < 2 * B * (n + 1) ->
  G * (100 * (B * t)) - E < G * (MX * c) <= G * (100 * (B * t)) + E ->
  200 * E < B * G ->
  2 * (n * c) <= 20000 * t + c <= 2 * (n * c) + 2 * c.
Proof.
  intros Hc HG HB Hn HX HE.
  assert (0 < G * c) as HGc by (apply Z.mul_pos_pos; assumption).
  assert (2 * B * n * (G * c) <= (200 * MX + B) * (G * c)) as U
      by (apply Z.mul_le_mono_nonneg_r; lia).
  assert ((200 * MX + B) * (G * c) < 2 * B * (n + 1) * (G * c)) as L
      by (apply Z.mul_lt_mono_pos_r; lia).
  replace (2 * B * n * (G * c)) with (B * G * (2 * (n * c))) in U by ring.
  replace (2 * B * (n + 1) * (G * c)) with (B * G * (2 * (n * c) + 2 * c)) in L
    by ring.
  replace ((200 * MX + B) * (G * c))
    with (200 * (G * (MX * c)) + B * G * c) in U, L by ring.
  assert (0 < B * G) as HJ by (apply Z.mul_pos_pos; assumption).
  set (J := B * G) in *.
  assert (G * (100 * (B * t)) = 100 * (J * t)) as E1 by (unfold J; ring).
  rewrite E1 in HX. clear E1.
  assert (J * (2 * (n * c)) < J * (20000 * t + c + 1)) as U'.
  { replace (J * (20000 * t + c + 1)) with (20000 * (J * t) + J * c + J) by ring.
    lia. }
  assert (J * (20000 * t + c - 1) < J * (2 * (n * c) + 2 * c)) as L'.
  { replace (J * (20000 * t + c - 1)) with (20000 * (J * t) + J * c - J) by ring.
    lia. }
  apply Z.mul_lt_mono_pos_l in U'; [| exact HJ].
  apply Z.mul_lt_mono_pos_l in L'; [| exact HJ].
  lia.
Qed.

(** The accumulated error is small against [J] when the count is an int. *)
Lemma error_small (t c MQ J G : Z) :
  0 < t < 2 ^ 31 -> 0 < c -> 0 < G <= 256 ->
  2 ^ 52 <= MQ -> MQ * c <= J * t + c ->
  200 * ((100 + G) * c) < J.
Proof.
  intros Ht Hc HG HMQ HQ.
  assert (2 ^ 52 * c <= MQ * c) as H1 by (apply Z.mul_le_mono_nonneg_r; lia).
  assert (200 * ((100 + G) * c) <= 71200 * c) as H2.
  { replace (200 * ((100 + G) * c)) with ((20000 + 200 * G) * c) by ring.
    apply Z.mul_le_mono_nonneg_r; lia. }
  assert (71200 * c * t < (2 ^ 52 - 1) * c) as H3.
  { replace (71200 * c * t) with (71200 * t * c) by ring.
    apply Z.mul_lt_mono_pos_r; [lia |].
    change (2 ^ 52) with 4503599627370496.
    change (2 ^ 31) with 2147483648 in Ht. lia. }
  assert (71200 * c * t < J * t) as H4.
  { replace ((2 ^ 52 - 1) * c) with (2 ^ 52 * c - c) in H3 by ring. lia. }
  apply Z.mul_lt_mono_pos_r in H4; lia.
Qed.

(** A number of hundredths within half a hundredth of the exact percentage
    is the exact percentage rounded half up, unless the exact percentage
    lies halfway between two hundredths. *)
Lemma nearest_is_rounded (t c n : Z) :
  0 < c ->
  2 * (n * c) <= 20000 * t + c <= 2 * (n * c) + 2 * c ->
  2 * Z.abs (n * c - 10000 * t) <= c
  /\ (2 * ((10000 * t) mod c) <> c -> n = round_hundredths HalfUp t c).
Proof.
  intros Hc Hn. split; [lia |].
  intros Htie. unfold round_hundredths.
  pose proof (Z.div_mod (10000 * t) c ltac:(lia)) as Hdm.
  pose proof (Z.mod_pos_bound (10000 * t) c Hc) as Hr.
  set (q := 10000 * t / c) in *. set (r := (10000 * t) mod c) in *.
  assert (c * n = n * c) as En by ring.
  destruct (Z.compare_spec (2 * r) c) as [Heq | Hlt | Hgt]; [lia | |].
  - assert (c * n < c * (q + 1)) as U
        by (replace (c * (q + 1)) with (c * q + c) by ring; lia).
    assert (c * q < c * (n + 1)) as L
        by (replace (c * (n + 1)) with (c * n + c) by ring; lia).
    apply Z.mul_lt_mono_pos_l in U; [| exact Hc].
    apply Z.mul_lt_mono_pos_l in L; [| exact Hc]. lia.
  - assert (c * n < c * (q + 2)) as U
        by (replace (c * (q + 2)) with (c * q + 2 * c) by ring; lia).
    assert (c * q < c * n) as L by lia.
    apply Z.mul_lt_mono_pos_l in U; [| exact Hc].
    apply Z.mul_lt_mono_pos_l in L; [| exact Hc]. lia.
Qed.

(** *** Shifts and digit counts *)

Lemma digits2_pos_bounds (p : positive) :
  2 ^ (Z.pos (digits2_pos p) - 1) <= Z.pos p < 2 ^ Z.pos (digits2_pos p).
Proof.
  induction p as [p IH | p IH |]; cbn [digits2_pos].
  - rewrite Pos2Z.inj_succ.
    replace (Z.succ (Z.pos (digits2_pos p)) - 1)
      with (Z.succ (Z.pos (digits2_pos p) - 1)) by lia.
    rewrite !Z.pow_succ_r by lia. lia.
  - rewrite Pos2Z.inj_succ.
    replace (Z.succ (Z.pos (digits2_pos p)) - 1)
      with (Z.succ (Z.pos (digits2_pos p) - 1)) by lia.
    rewrite !Z.pow_succ_r by lia. lia.
  - cbn. lia.
Qed.

Lemma Zdigits2_unique (m d : Z) :
  0 < d -> 2 ^ (d - 1) <= m < 2 ^ d -> Zdigits2 m = d.
Proof.
  intros Hd Hm.
  assert (0 < m) as Hpos by (pose proof (Z.pow_pos_nonneg 2 (d - 1)); lia).
  destruct m as [|p|p]; try lia. cbn [Zdigits2].
  pose proof (digits2_pos_bounds p) as Hp.
  set (d' := Z.pos (digits2_pos p)) in *.
  destruct (Z.lt_trichotomy d' d) as [Hlt | [Heq | Hgt]]; [| exact Heq |].
  - exfalso.
    assert (2 ^ d' <= 2 ^ (d - 1)) by (apply Z.pow_le_mono_r; lia). lia.
  - exfalso.
    assert (2 ^ d <= 2 ^ (d' - 1)) by (apply Z.pow_le_mono_r; lia). lia.
Qed.

Lemma shr_1_m (mrs : shr_record) :
  0 <= shr_m mrs -> shr_m (shr_1 mrs) = shr_m mrs / 2.
Proof.
  destruct mrs as [m r s]. cbn [shr_m shr_1]. intros Hm.
  destruct m as [|[p|p|]|p]; cbn [shr_m]; try lia.
  - reflexivity.
  - rewrite Pos2Z.inj_xI. apply Z.div_unique with 1; lia.
  - rewrite Pos2Z.inj_xO. apply Z.div_unique with 0; lia.
  - reflexivity.
Qed.

Lemma iter_shr_1_m (n : positive) :
  forall mrs, 0 <= shr_m mrs ->
              shr_m (iter_pos shr_1 n mrs) = shr_m mrs / 2 ^ Z.pos n.
Proof.
  induction n as [n IH | n IH |]; intros mrs Hm; cbn [iter_pos].
  - assert (0 <= shr_m (shr_1 mrs)) as H1
        by (rewrite shr_1_m by exact Hm; apply Z.div_pos; lia).
    assert (0 <= shr_m (iter_pos shr_1 n (shr_1 mrs))) as H2
        by (rewrite IH by exact H1; apply Z.div_pos;
            [exact H1 | apply Z.pow_pos_nonneg; lia]).
    rewrite IH by exact H2. rewrite IH by exact H1.
    rewrite shr_1_m by exact Hm.
    rewrite !Z.div_div by (try apply Z.pow_pos_nonneg; lia).
    f_equal.
    replace (Z.pos n~1) with (1 + Z.pos n + Z.pos n) by lia.
    rewrite !Z.pow_add_r by lia. lia.
  - assert (0 <= shr_m (iter_pos shr_1 n mrs)) as H2
        by (rewrite IH by exact Hm; apply Z.div_pos;
            [exact Hm | apply Z.pow_pos_nonneg; lia]).
    rewrite IH by exact H2. rewrite IH by exact Hm.
    rewrite !Z.div_div by (try apply Z.pow_pos_nonneg; lia).
    f_equal.
    replace (Z.pos n~0) with (Z.pos n + Z.pos n) by lia.
    rewrite !Z.pow_add_r by lia. lia.
  - rewrite shr_1_m by exact Hm. reflexivity.
Qed.

Lemma shr_spec (m : Z) (l : location) (e n : Z) :
  0 <= m -> 0 <= n ->
  shr_m (fst (shr (shr_record_of_loc m l) e n)) = m / 2 ^ n
  /\ snd (shr (shr_record_of_loc m l) e n) = e + n.
Proof.
  intros Hm Hn.
  assert (shr_m (shr_record_of_loc m l) = m) as Hrec
      by (destruct l as [|[]]; reflexivity).
  destruct n as [|p|p]; cbn [shr fst snd]; try lia.
  - rewrite Hrec, Z.div_1_r. split; [reflexivity | lia].
  - rewrite iter_shr_1_m by (rewrite Hrec; exact Hm).
    rewrite Hrec. split; reflexivity.
Qed.

Lemma round_nearest_even_cases (m : Z) (l : location) :
  round_nearest_even m l = m \/ round_nearest_even m l = m + 1.
Proof.
  destruct l as [|[]]; cbn [round_nearest_even]; auto.
  destruct (Z.even m); auto.
Qed.

Lemma iter_xO (n p : positive) :
  Z.pos (Pos.iter xO p n) = Z.pos p * 2 ^ Z.pos n.
Proof.
  induction n as [|n IH] using Pos.peano_ind.
  - cbn [Pos.iter]. rewrite Pos2Z.inj_xO. change (2 ^ 1) with 2. lia.
  - rewrite Pos.iter_succ, Pos2Z.inj_xO, IH, Pos2Z.inj_succ, Z.pow_succ_r
      by lia.
    lia.
Qed.

(** *** Rounding to 53 bits *)

Lemma shr_fexp_normal (m e : Z) (l : location) (d : Z) :
  53 <= d -> 2 ^ (d - 1) <= m < 2 ^ d -> -1074 <= e ->
  shr_m (fst (shr_fexp 53 1024 m e l)) = m / 2 ^ (d - 53)
  /\ snd (shr_fexp 53 1024 m e l) = e + (d - 53).
Proof.
  intros Hd Hm He. unfold shr_fexp.
  rewrite (Zdigits2_unique m d) by lia.
  assert (0 <= m) by (pose proof (Z.pow_pos_nonneg 2 (d - 1)); lia).
  replace (fexp 53 1024 (d + e) - e) with (d - 53)
    by (unfold fexp, emin; lia).
  apply shr_spec; lia.
Qed.

(** A mantissa of [d >= 53] bits is rounded to one of 53 bits, off by at
    most one unit of the result. *)
Lemma binary_round_aux_normal (sx : bool) (mx ex : Z) (lx : location)
      (d : Z) :
  53 <= d -> 2 ^ (d - 1) <= mx < 2 ^ d -> -1074 <= ex -> ex + d <= 1023 ->
  exists m e,
    binary_round_aux 53 1024 sx mx ex lx = S754_finite sx m e
    /\ ex + (d - 53) <= e <= ex + (d - 52)
    /\ 2 ^ 52 <= Z.pos m < 2 ^ 53
    /\ mx - 2 ^ (e - ex) < Z.pos m * 2 ^ (e - ex) <= mx + 2 ^ (e - ex).
Proof.
  intros Hd Hm He Hmax. unfold binary_round_aux.
  destruct (shr_fexp_normal mx ex lx d Hd Hm He) as [Hm1 He1].
  destruct (shr_fexp 53 1024 mx ex lx) as [mrs1 e1].
  cbn [fst snd] in Hm1, He1.
  set (n := d - 53) in *.
  assert (0 < 2 ^ n) as Hn by (apply Z.pow_pos_nonneg; lia).
  assert (2 ^ d = 2 ^ 53 * 2 ^ n) as Hd2
      by (rewrite <- Z.pow_add_r by lia; f_equal; lia).
  assert (2 ^ (d - 1) = 2 ^ 52 * 2 ^ n) as Hd1
      by (rewrite <- Z.pow_add_r by lia; f_equal; lia).
  set (m1 := shr_m mrs1) in *.
  assert (m1 * 2 ^ n <= mx < (m1 + 1) * 2 ^ n) as Hq.
  { rewrite Hm1. pose proof (Z.mul_div_le mx (2 ^ n) Hn).
    pose proof (Z.mul_succ_div_gt mx (2 ^ n) Hn). lia. }
  assert (2 ^ 52 <= m1 < 2 ^ 53) as Hm1b by nia.
  set (m2 := round_nearest_even m1 (loc_of_shr_record mrs1)).
  assert (m2 = m1 \/ m2 = m1 + 1) as Hm2 by apply round_nearest_even_cases.
  destruct (Z.eq_dec m2 (2 ^ 53)) as [Hcarry | Hnocarry].
  - assert (2 ^ (54 - 1) <= m2 < 2 ^ 54) as H54.
    { rewrite Hcarry. change (54 - 1) with 53. split; [lia | ].
      apply Z.pow_lt_mono_r; lia. }
    destruct (shr_fexp_normal m2 e1 loc_Exact 54 ltac:(lia) H54 ltac:(lia))
      as [Hm3 He3].
    destruct (shr_fexp 53 1024 m2 e1 loc_Exact) as [mrs3 e3].
    cbn [fst snd] in Hm3, He3. rewrite Hm3, Hcarry.
    change (2 ^ 53 / 2 ^ (54 - 53)) with (Z.pos (2 ^ 52)).
    replace (e3 <=? 1024 - 53) with true by (symmetry; apply Z.leb_le; lia).
    exists (2 ^ 52)%positive, e3. split; [reflexivity |].
    split; [lia |]. split; [split; [reflexivity | reflexivity] |].
    replace (e3 - ex) with (1 + n) by lia.
    rewrite Z.pow_add_r by lia. change (Z.pos (2 ^ 52)) with (2 ^ 52).
    change (2 ^ 1) with 2. nia.
  - assert (2 ^ (53 - 1) <= m2 < 2 ^ 53) as H53
        by (change (53 - 1) with 52; lia).
    destruct (shr_fexp_normal m2 e1 loc_Exact 53 ltac:(lia) H53 ltac:(lia))
      as [Hm3 He3].
    destruct (shr_fexp 53 1024 m2 e1 loc_Exact) as [mrs3 e3].
    cbn [fst snd] in Hm3, He3. rewrite Hm3.
    change (2 ^ (53 - 53)) with 1. rewrite Z.div_1_r.
    destruct m2 as [|p|p]; try lia.
    replace (e3 <=? 1024 - 53) with true by (symmetry; apply Z.leb_le; lia).
    exists p, e3. split; [reflexivity |].
    split; [lia |]. split; [lia |].
    replace (e3 - ex) with n by lia. nia.
Qed.

(** A mantissa of exactly 53 bits with nothing to round is kept. *)
Lemma binary_round_aux_exact (sx : bool) (m : positive) (e : Z) :
  2 ^ 52 <= Z.pos m < 2 ^ 53 -> -1074 <= e <= 971 ->
  binary_round_aux 53 1024 sx (Z.pos m) e loc_Exact = S754_finite sx m e.
Proof.
  intros Hm He.
  assert (shr_fexp 53 1024 (Z.pos m) e loc_Exact
          = ({| shr_m := Z.pos m; shr_r := false; shr_s := false |}, e)) as H.
  { unfold shr_fexp.
    rewrite (Zdigits2_unique (Z.pos m) 53) by (change (53 - 1) with 52; lia).
    replace (fexp 53 1024 (53 + e) - e) with 0 by (unfold fexp, emin; lia).
    reflexivity. }
  unfold binary_round_aux. rewrite H.
  cbn [shr_m loc_of_shr_record round_nearest_even].
  rewrite H. cbn [shr_m].
  replace (e <=? 1024 - 53) with true by (symmetry; apply Z.leb_le; lia).
  reflexivity.
Qed.

(** *** The operations of the stats handler *)

(** The Number holding a positive integer below 2^53 holds it exactly. *)
Lemma of_Z_normal (t : Z) :
  0 < t < 2 ^ 53 ->
  exists m a,
    Number.of_Z t = S754_finite false m (- a)
    /\ 0 <= a <= 52
    /\ Z.pos m = t * 2 ^ a
    /\ 2 ^ 52 <= Z.pos m < 2 ^ 53.
Proof.
  intros Ht. unfold Number.of_Z, Number.prec, Number.emax.
  destruct t as [|p|p]; try lia.
  cbn [binary_normalize]. unfold binary_round.
  pose proof (digits2_pos_bounds p) as Hd.
  set (d := Z.pos (digits2_pos p)) in *.
  assert (1 <= d <= 53) as Hd53.
  { split; [lia |].
    destruct (Z.le_gt_cases d 53) as [|Hgt]; [assumption | exfalso].
    assert (2 ^ 53 <= 2 ^ (d - 1)) by (apply Z.pow_le_mono_r; lia). lia. }
  replace (fexp 53 1024 (d + 0)) with (d - 53) by (unfold fexp, emin; lia).
  unfold shl_align.
  destruct (d - 53 - 0) as [|q|q] eqn:Hs; try lia.
  - assert (d = 53) as Hd' by lia. rewrite Hd' in Hd.
    change (53 - 1) with 52 in Hd.
    rewrite binary_round_aux_exact by lia.
    exists p, 0. change (2 ^ 0) with 1. repeat split; lia.
  - assert (Z.pos q = 53 - d) as Hq by lia.
    assert (2 ^ 53 = 2 ^ d * 2 ^ Z.pos q) as Hp1
      by (rewrite <- Z.pow_add_r by lia; f_equal; lia).
    assert (2 ^ 52 = 2 ^ (d - 1) * 2 ^ Z.pos q) as Hp2
      by (rewrite <- Z.pow_add_r by lia; f_equal; lia).
    assert (0 < 2 ^ Z.pos q) by (apply Z.pow_pos_nonneg; lia).
    pose proof (iter_xO q p) as Hm.
    rewrite binary_round_aux_exact by (rewrite ?Hm; nia).
    exists (Pos.iter xO p q), (Z.pos q).
    replace (- Z.pos q) with (d - 53) by lia.
    split; [reflexivity |]. split; [lia |]. split; [exact Hm |].
    rewrite Hm. nia.
Qed.

Lemma of_Z_100 : Number.of_Z 100 = S754_finite false 7036874417766400 (-46).
Proof. reflexivity. Qed.

Lemma of_Z_1e21 :
  Number.of_Z (10 ^ 21) = S754_finite false 7629394531250000 17.
Proof. vm_compute. reflexivity. Qed.

(** Division of two normal numbers: the result is within one unit in the
    last place of the exact quotient. *)
Lemma SFdiv_normal (m1 m2 : positive) (a1 a2 : Z) :
  2 ^ 52 <= Z.pos m1 < 2 ^ 53 -> 2 ^ 52 <= Z.pos m2 < 2 ^ 53 ->
  0 <= a1 <= 52 -> 0 <= a2 <= 52 ->
  exists mq k,
    Number.div (S754_finite false m1 (- a1)) (S754_finite false m2 (- a2))
    = S754_finite false mq (a2 - a1 - 53 + k)
    /\ 0 <= k <= 2
    /\ 2 ^ 52 <= Z.pos mq < 2 ^ 53
    /\ Z.pos mq * 2 ^ k * Z.pos m2 <= Z.pos m1 * 2 ^ 53 + 2 ^ k * Z.pos m2
    /\ Z.pos m1 * 2 ^ 53 - 2 ^ k * Z.pos m2 < Z.pos mq * 2 ^ k * Z.pos m2.
Proof.
  intros H1 H2 Ha1 Ha2.
  unfold Number.div, Number.prec, Number.emax.
  cbn [SFdiv xorb]. unfold SFdiv_core_binary. cbv zeta.
  rewrite !(Zdigits2_unique _ 53) by (change (53 - 1) with 52; lia).
  replace (Z.min (fexp 53 1024 (53 + - a1 - (53 + - a2))) (- a1 - - a2))
    with (a2 - a1 - 53) by (unfold fexp, emin; lia).
  replace (- a1 - - a2 - (a2 - a1 - 53)) with 53 by lia.
  cbv iota. rewrite Z.shiftl_mul_pow2 by lia.
  pose proof (Z_div_mod (Z.pos m1 * 2 ^ 53) (Z.pos m2) ltac:(lia)) as Hdiv.
  destruct (Z.div_eucl (Z.pos m1 * 2 ^ 53) (Z.pos m2)) as [q r].
  destruct Hdiv as [Hq Hr].
  pose proof (quotient_bounds _ _ _ _ H1 H2 Hq Hr) as Hqb.
  assert (exists d, 53 <= d <= 54 /\ 2 ^ (d - 1) <= q < 2 ^ d)
    as (d & Hd & Hqd).
  { destruct (Z.lt_ge_cases q (2 ^ 53)).
    - exists 53. change (53 - 1) with 52. lia.
    - exists 54. change (54 - 1) with 53. lia. }
  destruct (binary_round_aux_normal false q (a2 - a1 - 53)
              (new_location (Z.pos m2) r) d)
    as (mq & e & Heq & He & Hmq & Hval); try lia.
  exists mq, (e - (a2 - a1 - 53)).
  replace (a2 - a1 - 53 + (e - (a2 - a1 - 53))) with e by lia.
  split; [exact Heq |]. split; [lia |]. split; [exact Hmq |].
  apply (quotient_rounded _ _ q r); try assumption; try lia;
    apply Z.pow_pos_nonneg; lia.
Qed.

(** Multiplication of a normal number by 100. *)
Lemma SFmul_100 (mq : positive) (eq : Z) :
  2 ^ 52 <= Z.pos mq < 2 ^ 53 -> -200 <= eq <= 0 ->
  exists mx s,
    Number.mul (S754_finite false mq eq) (Number.of_Z 100)
    = S754_finite false mx (eq + s)
    /\ 6 <= s <= 8
    /\ 2 ^ 52 <= Z.pos mx < 2 ^ 53
    /\ 100 * Z.pos mq - 2 ^ s < Z.pos mx * 2 ^ s <= 100 * Z.pos mq + 2 ^ s.
Proof.
  intros Hmq Heq. rewrite of_Z_100.
  unfold Number.mul, Number.prec, Number.emax. cbn [SFmul xorb].
  rewrite Pos2Z.inj_mul.
  set (P := Z.pos mq * Z.pos 7036874417766400).
  assert (P = Z.pos mq * 100 * 2 ^ 46) as HP by (unfold P; lia).
  assert (2 ^ 104 <= P < 2 ^ 106) as HPb.
  { rewrite HP. change (2 ^ 104) with (2 ^ 52 * 2 ^ 52).
    change (2 ^ 106) with (2 ^ 53 * 2 ^ 53). lia. }
  assert (exists d, 105 <= d <= 106 /\ 2 ^ (d - 1) <= P < 2 ^ d)
    as (d & Hd & HPd).
  { destruct (Z.lt_ge_cases P (2 ^ 105)).
    - exists 105. change (105 - 1) with 104. lia.
    - exists 106. change (106 - 1) with 105. lia. }
  destruct (binary_round_aux_normal false P (eq + -46) loc_Exact d)
    as (mx & e & Hres & He & Hmx & Hval); try lia.
  exists mx, (e - eq). replace (eq + (e - eq)) with e by lia.
  split; [exact Hres |]. split; [lia |]. split; [exact Hmx |].
  replace (e - (eq + -46)) with (e - eq + 46) in Hval by lia.
  rewrite Z.pow_add_r in Hval by lia.
  set (G := 2 ^ (e - eq)) in *.
  assert (0 < G) by (apply Z.pow_pos_nonneg; lia).
  rewrite HP in Hval. lia.
Qed.

(** toFixed(2) of a positive number with a negative exponent. *)
Lemma toFixed_2_small (ts : spec_float -> string) (mx : positive) (ex : Z) :
  ex < 0 ->
  Number.toFixed ts 2 (S754_finite false mx ex)
  = Number.fixed_digits 2 ((200 * Z.pos mx + 2 ^ (- ex)) / (2 * 2 ^ (- ex))).
Proof.
  intros Hex. unfold Number.toFixed. rewrite of_Z_1e21.
  unfold SFleb, SFcompare.
  destruct (Z.compare_spec 17 ex); try lia.
  unfold Number.nearest_scaled.
  replace (0 <=? ex) with false by (symmetry; apply Z.leb_gt; exact Hex).
  cbn [String.append]. f_equal.
  change (10 ^ Z.of_nat 2) with 100.
  replace (1 - ex) with (1 + - ex) by lia.
  rewrite Z.pow_add_r by lia. change (2 ^ 1) with 2.
  f_equal. lia.
Qed.

(** The percentage the handler renders is within half a hundredth of the
    exact one. *)
Lemma percent_used_positive (ts : spec_float -> string) (t c : Z) :
  0 < t < 2 ^ 31 -> 0 < c < 2 ^ 31 ->
  exists n,
    percent_used ts t c = Number.fixed_digits 2 n
    /\ 2 * (n * c) <= 20000 * t + c <= 2 * (n * c) + 2 * c.
Proof.
  intros Ht Hc. unfold percent_used.
  assert (2 ^ 31 < 2 ^ 53) as H31 by (apply Z.pow_lt_mono_r; lia).
  destruct (of_Z_normal t ltac:(lia)) as (m1 & a1 & E1 & Ha1 & Hm1 & Hb1).
  destruct (of_Z_normal c ltac:(lia)) as (m2 & a2 & E2 & Ha2 & Hm2 & Hb2).
  rewrite E1, E2.
  destruct (SFdiv_normal m1 m2 a1 a2 Hb1 Hb2 Ha1 Ha2)
    as (mq & k & Ediv & Hk & Hbq & Hq1 & Hq2).
  rewrite Ediv.
  assert (0 < 2 ^ a1) as HA1 by (apply Z.pow_pos_nonneg; lia).
  assert (0 < 2 ^ a2) as HA2 by (apply Z.pow_pos_nonneg; lia).
  assert (22 <= a1) as Ha1'.
  { destruct (Z.le_gt_cases 22 a1) as [|Hlt]; [assumption | exfalso].
    assert (2 ^ a1 <= 2 ^ 21) by (apply Z.pow_le_mono_r; lia).
    assert (t * 2 ^ a1 <= t * 2 ^ 21)
      by (apply Z.mul_le_mono_nonneg_l; lia).
    assert (t * 2 ^ 21 < 2 ^ 31 * 2 ^ 21)
      by (apply Z.mul_lt_mono_pos_r; lia).
    change (2 ^ 52) with (2 ^ 31 * 2 ^ 21) in Hb1. lia. }
  destruct (SFmul_100 mq (a2 - a1 - 53 + k) Hbq ltac:(lia))
    as (mx & s & Emul & Hs & Hbx & Hx).
  rewrite Emul.
  set (j := a1 + 53 - a2 - k).
  set (i := j - s).
  replace (a2 - a1 - 53 + k + s) with (- i) by (unfold i, j; lia).
  assert (13 <= i) as Hi by (unfold i, j; lia).
  rewrite toFixed_2_small by lia. rewrite Z.opp_involutive.
  set (B := 2 ^ i). set (G := 2 ^ s) in *. set (K := 2 ^ k) in *.
  set (MQ := Z.pos mq) in *. set (MX := Z.pos mx) in *.
  assert (0 < B) as HB by (apply Z.pow_pos_nonneg; lia).
  assert (0 < G) as HG by (apply Z.pow_pos_nonneg; lia).
  assert (0 < K) as HK by (apply Z.pow_pos_nonneg; lia).
  assert (G <= 256) as HG256
      by (change 256 with (2 ^ 8); apply Z.pow_le_mono_r; lia).
  set (J := B * G).
  assert (J * K * 2 ^ a2 = 2 ^ a1 * 2 ^ 53) as HJ.
  { unfold J, B, G, K. rewrite <- !Z.pow_add_r by lia. f_equal.
    unfold i, j. lia. }
  set (n := (200 * MX + B) / (2 * B)).
  assert (2 * B * n <= 200 * MX + B < 2 * B * (n + 1)) as Hn.
  { pose proof (Z.mul_div_le (200 * MX + B) (2 * B) ltac:(lia)) as Hle.
    pose proof (Z.mul_succ_div_gt (200 * MX + B) (2 * B) ltac:(lia)) as Hgt.
    fold n in Hle, Hgt. lia. }
  exists n. split; [reflexivity |].
  assert (J * t - c < MQ * c <= J * t + c) as HQ.
  { apply (quotient_units t c MQ K (2 ^ a1) (2 ^ a2) J (2 ^ 53) HK HA2 HJ).
    - rewrite <- Hm1, <- Hm2. exact Hq1.
    - rewrite <- Hm1, <- Hm2. exact Hq2. }
  assert (200 * ((100 + G) * c) < J) as Hsmall.
  { apply (error_small t c MQ J G); lia. }
  apply (hundredths_units t c MX n B G ((100 + G) * c)); try lia.
  apply (product_units t c MQ MX B G); try lia.
Qed.

Lemma percent_used_zero (ts : spec_float -> string) (c : Z) :
  0 < c < 2 ^ 31 -> percent_used ts 0 c = Number.fixed_digits 2 0.
Proof.
  intros Hc. unfold percent_used.
  assert (2 ^ 31 < 2 ^ 53) as H31 by (apply Z.pow_lt_mono_r; lia).
  destruct (of_Z_normal c ltac:(lia)) as (m2 & a2 & E2 & _).
  rewrite E2, of_Z_100. reflexivity.
Qed.

(** For every count and capacity an [int] column can hold, the rendered
    percentage is a nearest two-decimal value to the exact percentage, and
    the exact percentage rounded half up unless that lies halfway. *)
Lemma percent_used_nearest (ts : spec_float -> string) (t c : Z) :
  0 <= t < 2 ^ 31 -> 0 < c < 2 ^ 31 ->
  exists n,
    percent_used ts t c = Number.fixed_digits 2 n
    /\ 2 * Z.abs (n * c - 10000 * t) <= c
    /\ (2 * ((10000 * t) mod c) <> c -> n = round_hundredths HalfUp t c).
Proof.
  intros Ht Hc.
  destruct (Z.eq_dec t 0) as [-> | Hne].
  - exists 0. split; [now apply percent_used_zero |].
    apply nearest_is_rounded; lia.
  - destruct (percent_used_positive ts t c ltac:(lia) Hc) as (n & E & Hn).
    exists n. split; [exact E |].
    apply nearest_is_rounded; lia.
Qed.

(** ** Statistics *)

Lemma stats_run (ts : spec_float -> string) (id : uuid) (d : database) :
  Stats.getStats ts id d
  = match find_event d id with
    | None => (event_not_found, d)
    | Some ev =>
        (stats_json (registration_count d id) (event_capacity ev)
                    (percent_used ts (registration_count d id)
                                  (event_capacity ev)), d)
    end.
Proof.
  unfold Stats.getStats, Stats.stats_handler, Stats.select_capacity, find_event,
    serve.
  run_handler.
  destruct (filter (fun e => (event_id e =? id)%string) (events d))
    as [|ev rest]; reflexivity.
Qed.

(** C6 (as stated) fails under each way of rounding a half. With 23 of 160
    places taken the exact percentage is 14.375 and the handler answers
    14.37, where rounding the half up or to even gives 14.38; with 1 of 32
    it is 3.125 and the handler answers 3.13, where rounding the half down
    gives 3.12. *)
Lemma stats_percent_not_exactly_rounded :
  ~ exists rule, stats_as_specified rule (fun _ => "").
Proof.
  intros [rule H].
  pose proof (H (Sample.expo 160 23) "e-3" _ eq_refl eq_refl) as H1.
  pose proof (H (Sample.expo 32 1) "e-3" _ eq_refl eq_refl) as H2.
  destruct rule; vm_compute in H1, H2; discriminate.
Qed.

(** C6 (as amended). For a stored event with capacity [cap] and [total]
    registrations, both within the range of an [int] column, the stats
    route answers totalRegistrations = total, remainingCapacity = cap -
    total and a percentUsed of two decimals that is nearest to the exact
    percentage 100 * total / cap: it is the exact percentage rounded to two
    decimals, except that when the exact percentage lies halfway between
    two such values either of them may be returned. The route answers 404
    "Event not found" when the event is not stored. With 3 registrations
    against a capacity of 10 the answer is 3, 7 and "30.00". *)
Theorem stats_response (ts : spec_float -> string) (id : uuid)
        (d : database) :
  (find_event d id = None -> Stats.getStats ts id d = (event_not_found, d))
  /\ (forall ev,
         find_event d id = Some ev ->
         0 < event_capacity ev < 2 ^ 31 ->
         registration_count d id < 2 ^ 31 ->
         exists n,
           Stats.getStats ts id d
           = (stats_json (registration_count d id) (event_capacity ev)
                         (Number.fixed_digits 2 n), d)
           /\ 2 * Z.abs (n * event_capacity ev
                         - 10000 * registration_count d id)
              <= event_capacity ev
           /\ (2 * ((10000 * registration_count d id) mod event_capacity ev)
               <> event_capacity ev ->
               n = round_hundredths HalfUp (registration_count d id)
                                    (event_capacity ev)))
  /\ (forall ev,
         find_event d id = Some ev ->
         event_capacity ev = 10 ->
         registration_count d id = 3 ->
         fst (Stats.getStats ts id d)
         = mkResponse 200 (VObj [("totalRegistrations", VNum 3);
                                 ("remainingCapacity", VNum 7);
                                 ("percentUsed", VStr "30.00")])).
Proof.
  rewrite stats_run. split; [| split].
  - now intros ->.
  - intros ev -> Hcap Htotal.
    assert (0 <= registration_count d id) as H0
        by (unfold registration_count; lia).
    destruct (percent_used_nearest ts (registration_count d id)
                                   (event_capacity ev) ltac:(lia) Hcap)
      as (n & E & Hn).
    exists n. rewrite E. split; [reflexivity | exact Hn].
  - intros ev -> -> ->. reflexivity.
Qed.

Lemma stats_response_witness :
  fst (Stats.getStats (fun _ => "") "e-3" (Sample.expo 10 3))
  = mkResponse 200 (VObj [("totalRegistrations", VNum 3);
                          ("remainingCapacity", VNum 7);
                          ("percentUsed", VStr "30.00")])
  /\ exists n,
      Stats.getStats (fun _ => "") "e-3" (Sample.expo 160 23)
      = (stats_json 23 160 (Number.fixed_digits 2 n), Sample.expo 160 23)
      /\ 2 * Z.abs (n * 160 - 10000 * 23) <= 160.
Proof.
  split.
  - apply (proj2 (proj2 (stats_response (fun _ => "") "e-3"
                                        (Sample.expo 10 3)))
                 (mkEvent "e-3" "Expo" 2000 "Dock" 10 0));
      reflexivity.
  - destruct (proj1 (proj2 (stats_response (fun _ => "") "e-3"
                                           (Sample.expo 160 23)))
                    (mkEvent "e-3" "Expo" 2000 "Dock" 160 0))
      as (n & E & Hn & _).
    + reflexivity.
    + split; reflexivity.
    + reflexivity.
    + exists n. split; [exact E | exact Hn].
Defined.

(** * Beyond the registration engine: the other routes, the schema and how
      the operations compose *)

(** ** More facts about result sets *)

Lemma NoDup_snoc {A : Type} (l : list A) (x : A) :
  NoDup l -> ~ In x l -> NoDup (l ++ [x]).
Proof.
  induction l as [|a l IH]; intros Hl Hx; cbn.
  - constructor; [intros [] | constructor].
  - inversion Hl as [|? ? Ha Hl']; subst. constructor.
    + intros Hin. apply in_app_or in Hin as [Hin | [<- | []]].
      * now apply Ha.
      * apply Hx. now left.
    + apply IH; [exact Hl' |]. intros Hin. apply Hx. now right.
Qed.

(** Deleting rows keeps a key unique. *)
Lemma key_unique_after_delete {A K : Type} (key : A -> K)
      (keep : A -> bool) (rows : list A) :
  NoDup (map key rows) -> NoDup (map key (filter keep rows)).
Proof.
  induction rows as [|row rows IH]; cbn; intros H; [constructor |].
  inversion H as [|? ? Hrow Hrows]; subst.
  destruct (keep row); cbn; [constructor |]; auto.
  intros Hin. apply Hrow. apply in_map_iff in Hin as (x & Hx & Hin).
  apply filter_In in Hin as [Hin _]. apply in_map_iff. now exists x.
Qed.

Lemma key_free {A : Type} (key : A -> string) (k : string) (l : list A) :
  existsb (fun x => (key x =? k)%string) l = false -> ~ In k (map key l).
Proof.
  intros H Hin. apply in_map_iff in Hin as (x & Hx & Hin).
  assert (existsb (fun x => (key x =? k)%string) l = true); [| congruence].
  apply existsb_exists. exists x. split; [exact Hin |].
  now apply String.eqb_eq.
Qed.

Lemma filter_keep_all {A : Type} (p : A -> bool) (l : list A) :
  existsb p l = false -> filter (fun x => negb (p x)) l = l.
Proof.
  induction l as [|a l IH]; cbn; [reflexivity |].
  destruct (p a); cbn; [discriminate |]. intros H. now rewrite IH.
Qed.

(** Rows selected by [q] are among those selected by [p]: removing them
    lowers the count by their number. *)
Lemma length_filter_remove {A : Type} (p q : A -> bool) (l : list A) :
  (forall x, q x = true -> p x = true) ->
  (List.length (filter p l)
   = List.length (filter p (filter (fun x => negb (q x)) l))
     + List.length (filter q l))%nat.
Proof.
  intros Hqp. induction l as [|a l IH]; cbn; [reflexivity |].
  destruct (q a) eqn:Hq; cbn.
  - rewrite (Hqp a Hq). cbn. lia.
  - destruct (p a); cbn; lia.
Qed.

(** Rows not selected by [p] do not count. *)
Lemma length_filter_disjoint {A : Type} (p q : A -> bool) (l : list A) :
  (forall x, q x = true -> p x = false) ->
  filter p (filter (fun x => negb (q x)) l) = filter p l.
Proof.
  intros Hqp. induction l as [|a l IH]; cbn; [reflexivity |].
  destruct (q a) eqn:Hq; cbn.
  - rewrite (Hqp a Hq). exact IH.
  - destruct (p a); cbn; now rewrite IH.
Qed.

Lemma on_pair_key (userId eventId : uuid) (r : registration) :
  on_pair userId eventId r = true
  <-> (reg_user_id r, reg_event_id r) = (userId, eventId).
Proof.
  unfold on_pair. rewrite andb_true_iff, !String.eqb_eq.
  split; [intros [-> ->]; reflexivity | intros [= -> ->]; now split].
Qed.

(** Under the unique key on (user, event) at most one row matches a pair. *)
Lemma one_row_per_pair (userId eventId : uuid) (l : list registration) :
  NoDup (map (fun r => (reg_user_id r, reg_event_id r)) l) ->
  (List.length (filter (on_pair userId eventId) l) <= 1)%nat.
Proof.
  induction l as [|r l IH]; cbn; intros H; [lia |].
  inversion H as [|? ? Hr Hl]; subst.
  destruct (on_pair userId eventId r) eqn:E; [| now apply IH].
  cbn. apply on_pair_key in E.
  destruct (filter (on_pair userId eventId) l) as [|r' rest] eqn:F;
    [cbn; lia | exfalso].
  apply filter_head_sat in F as [E' Hin]. apply on_pair_key in E'.
  apply Hr. rewrite E, <- E'.
  now apply (in_map (fun r => (reg_user_id r, reg_event_id r))).
Qed.

(** ** The create route *)

Lemma create_run (id : uuid) (now : timestamp) (title : string)
      (datetime : result (result timestamp)) (location : string)
      (capacity : Z) (d : database) :
  create_event id now title datetime location capacity d
  = match datetime with
    | Thrown msg => (error_json 500 msg, d)
    | Ok iso =>
        if Pg.contains_nul title
        then (error_json 500 Pg.invalid_byte_sequence, d)
        else
          match iso with
          | Thrown msg => (error_json 500 msg, d)
          | Ok t =>
              if Pg.contains_nul location
              then (error_json 500 Pg.invalid_byte_sequence, d)
              else if negb ((-2147483648 <=? capacity)
                            && (capacity <=? 2147483647))%bool
              then (error_json 500 (Directory.int_out_of_range capacity), d)
              else if negb ((0 <? capacity) && (capacity <=? 1000))%bool
              then (error_json 500 (Directory.check_violation
                                      "events" "events_capacity_check"), d)
              else if event_id_taken d id
              then (error_json 500 (Pg.unique_violation "events_pkey"), d)
              else (event_created id,
                    with_event d (mkEvent id title t location capacity now))
          end
    end.
Proof.
  unfold create_event, serve, Directory.create_event_handler,
    Directory.toISOString, Directory.insert_event, event_id_taken.
  run_handler.
  destruct datetime as [iso | msg]; [| reflexivity].
  destruct (Pg.contains_nul title); [reflexivity |].
  destruct iso as [t | msg]; [| reflexivity].
  destruct (Pg.contains_nul location); [reflexivity |].
  destruct (negb _); [reflexivity |].
  destruct (negb _); [reflexivity |].
  destruct (existsb _ _); reflexivity.
Qed.

(** ** What each write does to the tables *)

Lemma register_cases (eventId : uuid) (name email : string) (w : world)
      (d : database) :
  (fst (register eventId name email w d) <> registration_successful
   /\ snd (register eventId name email w d) = d)
  \/ (exists ev u,
         find_event d eventId = Some ev
         /\ clock w <= event_datetime ev
         /\ registration_count d eventId < event_capacity ev
         /\ find_user d email = Some u
         /\ registered d (user_id u) eventId = false
         /\ registration_id_taken d (registration_uuid w) = false
         /\ register eventId name email w d
            = (registration_successful,
               with_registration d w (user_id u) eventId))
  \/ (exists ev,
         find_event d eventId = Some ev
         /\ clock w <= event_datetime ev
         /\ registration_count d eventId < event_capacity ev
         /\ find_user d email = None
         /\ user_id_taken d (user_uuid w) = false
         /\ registered d (user_uuid w) eventId = false
         /\ registration_id_taken d (registration_uuid w) = false
         /\ register eventId name email w d
            = (registration_successful,
               with_registration (with_user d w name email) w
                                 (user_uuid w) eventId)).
Proof.
  rewrite register_run. unfold register_spec, resolve_user.
  destruct (find_event d eventId) as [ev|];
    [| left; split; [discriminate | reflexivity]].
  destruct (Z.ltb_spec (event_datetime ev) (clock w));
    [left; split; [discriminate | reflexivity] |].
  destruct (Z.leb_spec (event_capacity ev) (registration_count d eventId));
    [left; split; [discriminate | reflexivity] |].
  destruct (find_user d email) as [u|].
  - destruct (registered d (user_id u) eventId) eqn:Hdup;
      [left; split; [discriminate | reflexivity] |].
    destruct (registration_id_taken d (registration_uuid w)) eqn:Hid;
      [left; split; [discriminate | reflexivity] |].
    right. left. exists ev, u. repeat split; auto.
  - destruct (Pg.contains_nul name);
      [left; split; [discriminate | reflexivity] |].
    destruct (user_id_taken d (user_uuid w)) eqn:Huid;
      [left; split; [discriminate | reflexivity] |].
    change (registered (with_user d w name email) (user_uuid w) eventId)
      with (registered d (user_uuid w) eventId).
    change (registration_id_taken (with_user d w name email)
                                  (registration_uuid w))
      with (registration_id_taken d (registration_uuid w)).
    destruct (registered d (user_uuid w) eventId) eqn:Hdup;
      [left; split; [discriminate | reflexivity] |].
    destruct (registration_id_taken d (registration_uuid w)) eqn:Hid;
      [left; split; [discriminate | reflexivity] |].
    right. right. exists ev. repeat split; auto.
Qed.

Lemma find_event_in (d : database) (eventId : uuid) (ev : event) :
  find_event d eventId = Some ev ->
  event_id ev = eventId /\ In ev (events d).
Proof.
  intros H. apply hd_error_filter_some in H as [rest H].
  apply filter_head_sat in H as [E Hin]. split; [| exact Hin].
  now apply String.eqb_eq.
Qed.

Lemma find_user_in (d : database) (email : string) (u : user) :
  find_user d email = Some u ->
  user_email u = email /\ In u (users d).
Proof.
  intros H. apply hd_error_filter_some in H as [rest H].
  apply filter_head_sat in H as [E Hin]. split; [| exact Hin].
  now apply String.eqb_eq.
Qed.

Lemma not_registered_key (d : database) (userId eventId : uuid) :
  registered d userId eventId = false ->
  ~ In (userId, eventId)
       (map (fun r => (reg_user_id r, reg_event_id r)) (registrations d)).
Proof.
  intros H Hin. apply in_map_iff in Hin as (r & Hr & Hin).
  assert (registered d userId eventId = true); [| congruence].
  apply existsb_exists. exists r. split; [exact Hin |].
  now apply on_pair_key.
Qed.

Section SchemaSteps.
Variable d : database.
Hypothesis Hd : schema_holds d.

Lemma schema_with_user (w : world) (name email : string) :
  user_id_taken d (user_uuid w) = false ->
  find_user d email = None ->
  schema_holds (with_user d w name email).
Proof.
  intros Hid Hu. destruct Hd. constructor; try assumption.
  - unfold users_pkey. cbn [with_user users]. rewrite map_app.
    apply NoDup_snoc; [assumption | now apply key_free].
  - unfold users_email_key. cbn [with_user users]. rewrite map_app.
    apply NoDup_snoc; [assumption |]. apply key_free.
    apply hd_error_filter_none in Hu. now apply filter_nil_existsb.
  - intros r Hr. cbn [with_user users registrations] in *.
    rewrite map_app. apply in_or_app. left. auto.
Qed.

Lemma schema_with_registration (w : world) (userId eventId : uuid) :
  registration_id_taken d (registration_uuid w) = false ->
  In userId (map user_id (users d)) ->
  In eventId (map event_id (events d)) ->
  registered d userId eventId = false ->
  schema_holds (with_registration d w userId eventId).
Proof.
  intros Hid Hu He Hreg. destruct Hd. constructor; try assumption.
  - unfold registrations_pkey. cbn [with_registration registrations].
    rewrite map_app. apply NoDup_snoc; [assumption | now apply key_free].
  - intros r Hr. cbn [with_registration users registrations] in *.
    apply in_app_or in Hr as [Hr | [<- | []]]; auto.
  - intros r Hr. cbn [with_registration events registrations] in *.
    apply in_app_or in Hr as [Hr | [<- | []]]; auto.
  - unfold registrations_user_event_key.
    cbn [with_registration registrations]. rewrite map_app.
    apply NoDup_snoc; [assumption | now apply not_registered_key].
Qed.

Lemma schema_without_registration (userId eventId : uuid) :
  schema_holds (without_registration d userId eventId).
Proof.
  destruct Hd. constructor; try assumption.
  - now apply key_unique_after_delete.
  - intros r Hr. cbn [without_registration users registrations] in *.
    apply filter_In in Hr as [Hr _]. auto.
  - intros r Hr. cbn [without_registration events registrations] in *.
    apply filter_In in Hr as [Hr _]. auto.
  - now apply key_unique_after_delete.
Qed.

Lemma schema_with_event (e : event) :
  event_id_taken d (event_id e) = false ->
  0 < event_capacity e <= 1000 ->
  schema_holds (with_event d e).
Proof.
  intros Hid Hcap. destruct Hd. constructor; try assumption.
  - unfold events_pkey. cbn [with_event events]. rewrite map_app.
    apply NoDup_snoc; [assumption | now apply key_free].
  - intros e' He'. cbn [with_event events] in He'.
    apply in_app_or in He' as [He' | [<- | []]]; auto.
  - intros r Hr. cbn [with_event events registrations] in *.
    rewrite map_app. apply in_or_app. left. auto.
Qed.
End SchemaSteps.

(** ** The schema and the capacities under every write *)

Lemma register_keeps_schema (eventId : uuid) (name email : string)
      (w : world) (d : database) :
  schema_holds d -> schema_holds (snd (register eventId name email w d)).
Proof.
  intros Hd.
  destruct (register_cases eventId name email w d)
    as [[_ ->] | [(ev & u & Hev & _ & _ & Hu & Hreg & Hid & ->)
                 | (ev & Hev & _ & _ & Hu & Huid & Hreg & Hid & ->)]];
    [exact Hd | |]; cbn [snd].
  - apply find_event_in in Hev as [<- Hev].
    apply find_user_in in Hu as [_ Hu].
    apply schema_with_registration; try assumption.
    + now apply in_map.
    + now apply in_map.
  - apply find_event_in in Hev as [<- Hev].
    apply schema_with_registration; try assumption.
    + now apply schema_with_user.
    + cbn [with_user users]. rewrite map_app. apply in_or_app. right.
      now left.
    + now apply (in_map event_id).
Qed.

Lemma cancel_keeps_schema (eventId : uuid) (email : string) (d : database) :
  schema_holds d -> schema_holds (snd (cancel eventId email d)).
Proof.
  intros Hd. rewrite cancel_run.
  destruct (find_user d email) as [u|]; [| exact Hd].
  destruct (registered d (user_id u) eventId); [| exact Hd].
  now apply schema_without_registration.
Qed.

Lemma create_cases (id : uuid) (now : timestamp) (title : string)
      (datetime : result (result timestamp)) (location : string)
      (capacity : Z) (d : database) :
  (status (fst (create_event id now title datetime location capacity d)) = 500
   /\ snd (create_event id now title datetime location capacity d) = d)
  \/ (exists t,
         datetime = Ok (Ok t)
         /\ Pg.contains_nul title = false
         /\ Pg.contains_nul location = false
         /\ 0 < capacity <= 1000
         /\ event_id_taken d id = false
         /\ create_event id now title datetime location capacity d
            = (event_created id,
               with_event d (mkEvent id title t location capacity now))).
Proof.
  rewrite create_run.
  destruct datetime as [iso | msg]; [| left; split; reflexivity].
  destruct (Pg.contains_nul title) eqn:Htitle; [left; split; reflexivity |].
  destruct iso as [t | msg]; [| left; split; reflexivity].
  destruct (Pg.contains_nul location) eqn:Hloc;
    [left; split; reflexivity |].
  destruct (negb ((-2147483648 <=? capacity) && _)) eqn:Hint;
    [left; split; reflexivity |].
  destruct (negb ((0 <? capacity) && _)) eqn:Hcheck;
    [left; split; reflexivity |].
  destruct (event_id_taken d id) eqn:Hid; [left; split; reflexivity |].
  right. exists t. repeat split; auto.
  - apply negb_false_iff, andb_true_iff in Hcheck as [H _]. lia.
  - apply negb_false_iff, andb_true_iff in Hcheck as [_ H]. lia.
Qed.

Lemma create_keeps_schema (id : uuid) (now : timestamp) (title : string)
      (datetime : result (result timestamp)) (location : string)
      (capacity : Z) (d : database) :
  schema_holds d ->
  schema_holds (snd (create_event id now title datetime location capacity d)).
Proof.
  intros Hd.
  destruct (create_cases id now title datetime location capacity d)
    as [[_ ->] | (t & _ & _ & _ & Hcap & Hid & ->)]; [exact Hd |].
  cbn [snd]. now apply schema_with_event.
Qed.

(** No registration refers to an event that is not stored. *)
Lemma unknown_event_count (d : database) (eventId : uuid) :
  registrations_event_id_fkey d ->
  event_id_taken d eventId = false ->
  filter (on_event eventId) (registrations d) = [].
Proof.
  intros Hfk Hid. apply filter_nil_existsb.
  destruct (existsb (on_event eventId) (registrations d)) eqn:E;
    [exfalso | reflexivity].
  apply existsb_exists in E as (r & Hr & Hon).
  apply String.eqb_eq in Hon.
  apply (key_free event_id eventId (events d) Hid).
  rewrite <- Hon. now apply Hfk.
Qed.

Lemma find_event_with_event (d : database) (e : event) (eventId : uuid) :
  find_event (with_event d e) eventId
  = match find_event d eventId with
    | Some ev => Some ev
    | None => if (event_id e =? eventId)%string then Some e else None
    end.
Proof.
  unfold find_event. cbn [with_event events]. rewrite filter_snoc.
  destruct (filter _ (events d)) as [|ev rest]; [| reflexivity].
  cbn. now destruct (event_id e =? eventId)%string.
Qed.

Lemma create_within_capacity (id : uuid) (now : timestamp) (title : string)
      (datetime : result (result timestamp)) (location : string)
      (capacity : Z) (d : database) :
  registrations_event_id_fkey d ->
  within_capacity d ->
  within_capacity
    (snd (create_event id now title datetime location capacity d)).
Proof.
  intros Hfk Hd.
  destruct (create_cases id now title datetime location capacity d)
    as [[_ ->] | (t & _ & _ & _ & Hcap & Hid & ->)]; [exact Hd |].
  cbn [snd]. intros id0 ev0 H0. rewrite find_event_with_event in H0.
  change (registration_count (with_event d _) id0)
    with (registration_count d id0).
  destruct (find_event d id0) as [ev|] eqn:Hev.
  - injection H0 as <-. now apply Hd.
  - cbn [event_id] in H0.
    destruct (String.eqb_spec id id0) as [<- | _]; [| discriminate].
    injection H0 as <-. cbn [event_capacity].
    unfold registration_count. rewrite unknown_event_count by assumption.
    cbn. lia.
Qed.

Lemma handle_keeps_schema (rq : request) (d : database) :
  schema_holds d -> schema_holds (snd (handle rq d)).
Proof.
  destruct rq as [eventId name email w | eventId email]; cbn [handle].
  - apply register_keeps_schema.
  - apply cancel_keeps_schema.
Qed.

Lemma run_all_consistent (ops : list operation) :
  forall d,
    schema_holds d -> within_capacity d ->
    schema_holds (run_all ops d) /\ within_capacity (run_all ops d).
Proof.
  induction ops as [|op ops IH]; intros d Hs Hc; [now split |].
  cbn [run_all fold_left]. apply IH.
  - destruct op as [id now title datetime location capacity | rq];
      cbn [perform].
    + now apply create_keeps_schema.
    + now apply handle_keeps_schema.
  - destruct op as [id now title datetime location capacity
                   | [eventId name email w | eventId email]];
      cbn [perform handle].
    + apply create_within_capacity; [apply Hs | exact Hc].
    + now apply register_within_capacity.
    + now apply cancel_within_capacity.
Qed.

Lemma empty_db_consistent : schema_holds empty_db /\ within_capacity empty_db.
Proof.
  split.
  - constructor; try (constructor; fail); intros x [].
  - intros id ev H. discriminate.
Qed.

(** ** Lookups after a write *)

Lemma count_with_registration (d : database) (w : world)
      (userId eventId eventId' : uuid) :
  registration_count (with_registration d w userId eventId) eventId'
  = registration_count d eventId'
    + (if (eventId =? eventId')%string then 1 else 0).
Proof.
  unfold registration_count, with_registration. cbn [registrations].
  rewrite filter_snoc, length_app. unfold on_event at 2.
  cbn [reg_event_id]. destruct (eventId =? eventId')%string; cbn; lia.
Qed.

Lemma registered_with_registration (d : database) (w : world)
      (userId eventId : uuid) :
  registered (with_registration d w userId eventId) userId eventId = true.
Proof.
  unfold registered, with_registration. cbn [registrations].
  rewrite existsb_snoc. unfold on_pair at 2. cbn [reg_user_id reg_event_id].
  rewrite !String.eqb_refl. apply orb_true_r.
Qed.

Lemma find_user_with_user (d : database) (w : world) (name email : string) :
  find_user d email = None ->
  find_user (with_user d w name email) email
  = Some (mkUser (user_uuid w) name email).
Proof.
  intros H. apply hd_error_filter_none in H.
  unfold find_user, with_user. cbn [users]. rewrite filter_snoc, H.
  cbn [user_email]. now rewrite String.eqb_refl.
Qed.

(** The user a successful registration is booked on. *)
Lemma register_success_user (eventId : uuid) (name email : string)
      (w : world) (d : database) :
  status (fst (register eventId name email w d)) = 201 ->
  exists ev u d1,
    find_event d eventId = Some ev
    /\ clock w <= event_datetime ev
    /\ registration_count d eventId < event_capacity ev
    /\ events d1 = events d /\ registrations d1 = registrations d
    /\ (d1 = d \/ d1 = with_user d w name email)
    /\ find_user d1 email = Some u
    /\ registered d (user_id u) eventId = false
    /\ register eventId name email w d
       = (registration_successful,
          with_registration d1 w (user_id u) eventId).
Proof.
  intros H.
  destruct (register_cases eventId name email w d)
    as [[Hne Hsame] | [(ev & u & Hev & Hnow & Hroom & Hu & Hreg & Hid & E)
                      | (ev & Hev & Hnow & Hroom & Hu & Huid & Hreg & Hid
                         & E)]].
  - exfalso. apply register_status_201 in H as (d' & _ & E).
    apply Hne. now rewrite E.
  - exists ev, u, d. repeat split; auto.
  - exists ev, (mkUser (user_uuid w) name email), (with_user d w name email).
    repeat split; auto. now apply find_user_with_user.
Qed.

(** ** Properties of the create route *)



(** X2. Starting from the empty database, whatever events are created and
    whatever registrations and cancellations follow, every stored event
    holds between 0 and its capacity registrations, and its capacity is at
    most 1000. *)
Theorem no_overbooking_from_scratch (ops : list operation) (eventId : uuid)
        (ev : event) :
  find_event (run_all ops empty_db) eventId = Some ev ->
  0 <= registration_count (run_all ops empty_db) eventId
    <= event_capacity ev
  /\ event_capacity ev <= 1000.
Proof.
  intros Hev.
  destruct empty_db_consistent as [Hs Hc].
  destruct (run_all_consistent ops empty_db Hs Hc) as [Hs' Hc'].
  split; [split |].
  - unfold registration_count. lia.
  - now apply Hc'.
  - apply find_event_in in Hev as [_ Hin].
    now apply (holds_capacity_check _ Hs').
Qed.

Lemma no_overbooking_from_scratch_witness :
  0 <= registration_count
         (run_all [CreateEvent "e-9" 5 "Fete" (Ok (Ok 2000)) "Green" 1;
                   Serve (Register "e-9" "Ann" "ann@example.org"
                                   Sample.early);
                   Serve (Register "e-9" "Bob" "bob@example.org"
                                   Sample.clash)]
                  empty_db) "e-9"
    <= 1
  /\ 1 <= 1000.
Proof.
  apply (no_overbooking_from_scratch
           [CreateEvent "e-9" 5 "Fete" (Ok (Ok 2000)) "Green" 1;
            Serve (Register "e-9" "Ann" "ann@example.org" Sample.early);
            Serve (Register "e-9" "Bob" "bob@example.org" Sample.clash)]
           "e-9" (mkEvent "e-9" "Fete" 2000 "Green" 1 5)).
  reflexivity.
Defined.

Lemma find_created_event (d : database) (e : event) :
  event_id_taken d (event_id e) = false ->
  find_event (with_event d e) (event_id e) = Some e.
Proof.
  intros Hid. rewrite find_event_with_event. unfold find_event.
  apply filter_nil_existsb in Hid. rewrite Hid. cbn [hd_error].
  now rewrite String.eqb_refl.
Qed.

(** X3. When the handler of POST /api/events answers 201, the answer is
    {eventId: id} for the identifier the database drew, and the event is
    stored with exactly the title, location and capacity of the request and
    the time the database read from its date: a lookup by the identifier
    yields it, every event stored before is still found, and users and
    registrations are untouched. *)
Theorem create_event_stored (id : uuid) (now : timestamp) (title : string)
        (datetime : result (result timestamp)) (location : string)
        (capacity : Z) (d : database) :
  status (fst (create_event id now title datetime location capacity d)) = 201 ->
  let d' := snd (create_event id now title datetime location capacity d) in
  exists t,
    datetime = Ok (Ok t)
    /\ fst (create_event id now title datetime location capacity d)
       = mkResponse 201 (VObj [("eventId", VStr id)])
    /\ find_event d' id = Some (mkEvent id title t location capacity now)
    /\ (forall id0 ev,
           find_event d id0 = Some ev -> find_event d' id0 = Some ev)
    /\ users d' = users d
    /\ registrations d' = registrations d.
Proof.
  intros H d'. subst d'.
  destruct (create_cases id now title datetime location capacity d)
    as [[H500 _] | (t & Hdt & _ & _ & _ & Hid & E)];
    [rewrite H500 in H; discriminate |].
  exists t. rewrite E. cbn [fst snd].
  split; [exact Hdt |]. split; [reflexivity |].
  split; [| split; [| split; reflexivity]].
  - now apply (find_created_event d (mkEvent id title t location capacity now)).
  - intros id0 ev H0. rewrite find_event_with_event. now rewrite H0.
Qed.

Lemma create_event_stored_witness :
  find_event
    (snd (create_event "e-9" 5 "Fete" (Ok (Ok 2000)) "Green" 2 Sample.booked))
    "e-9"
  = Some (mkEvent "e-9" "Fete" 2000 "Green" 2 5).
Proof.
  destruct (create_event_stored "e-9" 5 "Fete" (Ok (Ok 2000)) "Green" 2
                                Sample.booked eq_refl)
    as (t & Hdt & _ & H & _).
  injection Hdt as <-. exact H.
Defined.

(** X4. The handler of POST /api/events, which runs once the validators
    have let the request through, answers 201 exactly when the date is
    valid and read by the datetime column, the title and the location hold
    no U+0000 (text the database accepts), the capacity lies within 1..1000
    and the identifier is unused; in every other case it answers 500 and
    leaves the database as it was. *)
Theorem create_event_accepts (id : uuid) (now : timestamp) (title : string)
        (datetime : result (result timestamp)) (location : string)
        (capacity : Z) (d : database) :
  (status (fst (create_event id now title datetime location capacity d)) = 201
   <-> (exists t, datetime = Ok (Ok t))
       /\ Pg.contains_nul title = false
       /\ Pg.contains_nul location = false
       /\ 0 < capacity <= 1000
       /\ event_id_taken d id = false)
  /\ (status (fst (create_event id now title datetime location capacity d))
      <> 201 ->
      status (fst (create_event id now title datetime location capacity d))
      = 500
      /\ snd (create_event id now title datetime location capacity d) = d).
Proof.
  destruct (create_cases id now title datetime location capacity d)
    as [[H500 Hsame] | (t & Hdt & Htitle & Hloc & Hcap & Hid & E)].
  - split; [split |].
    + rewrite H500. discriminate.
    + intros ((t & ->) & Htitle & Hloc & Hcap & Hid). exfalso.
      revert H500. rewrite create_run, Htitle, Hloc, Hid.
      replace (negb ((-2147483648 <=? capacity)
                     && (capacity <=? 2147483647)))
        with false
        by (symmetry; apply negb_false_iff, andb_true_iff; split;
            apply Z.leb_le; lia).
      replace (negb ((0 <? capacity) && (capacity <=? 1000))) with false
        by (symmetry; apply negb_false_iff, andb_true_iff; split;
            [apply Z.ltb_lt | apply Z.leb_le]; lia).
      cbn. discriminate.
    + intros _. now split.
  - rewrite E. cbn [fst snd status event_created]. split; [split |].
    + intros _. split; [now exists t | now repeat split].
    + reflexivity.
    + intros H. now contradiction H.
Qed.

Lemma create_event_accepts_witness :
  status (fst (create_event "e-9" 5 (String Ascii.zero "Fete") (Ok (Ok 2000))
                            "Green" 10 Sample.booked)) = 500
  /\ snd (create_event "e-9" 5 (String Ascii.zero "Fete") (Ok (Ok 2000))
                       "Green" 10 Sample.booked)
     = Sample.booked.
Proof.
  apply (create_event_accepts "e-9" 5 (String Ascii.zero "Fete")
                              (Ok (Ok 2000)) "Green" 10 Sample.booked).
  vm_compute. discriminate.
Defined.

Lemma unknown_event_not_registered (d : database) (userId eventId : uuid) :
  registrations_event_id_fkey d ->
  event_id_taken d eventId = false ->
  registered d userId eventId = false.
Proof.
  intros Hfk Hid.
  pose proof (unknown_event_count d eventId Hfk Hid) as Hnone.
  destruct (registered d userId eventId) eqn:E; [exfalso | reflexivity].
  apply existsb_exists in E as (r & Hr & Hon).
  apply andb_prop in Hon as [_ Hon].
  assert (In r (filter (on_event eventId) (registrations d))) as Hin
      by (apply filter_In; now split).
  now rewrite Hnone in Hin.
Qed.

(** X5. The statistics of an event whose creation was answered 201, in a
    database whose registrations all refer to stored events: no
    registration, the whole capacity remaining, 0.00 percent used. *)
Theorem new_event_stats (ts : spec_float -> string) (id : uuid)
        (now : timestamp) (title : string)
        (datetime : result (result timestamp)) (location : string)
        (capacity : Z) (d : database) :
  registrations_event_id_fkey d ->
  status (fst (create_event id now title datetime location capacity d)) = 201 ->
  fst (Stats.getStats ts id
         (snd (create_event id now title datetime location capacity d)))
  = mkResponse 200 (VObj [("totalRegistrations", VNum 0);
                          ("remainingCapacity", VNum capacity);
                          ("percentUsed", VStr "0.00")]).
Proof.
  intros Hfk H.
  destruct (create_cases id now title datetime location capacity d)
    as [[H500 _] | (t & _ & _ & _ & Hcap & Hid & E)];
    [rewrite H500 in H; discriminate |].
  rewrite E. cbn [snd]. rewrite stats_run.
  pose proof (find_created_event
                d (mkEvent id title t location capacity now) Hid) as Hfind.
  cbn [event_id] in Hfind. rewrite Hfind.
  cbn [fst event_capacity].
  change (registration_count
            (with_event d (mkEvent id title t location capacity now)) id)
    with (registration_count d id).
  unfold registration_count. rewrite unknown_event_count by assumption.
  cbn [List.length Z.of_nat].
  rewrite percent_used_zero.
  - unfold stats_json. now rewrite Z.sub_0_r.
  - assert (1000 < 2 ^ 31) by reflexivity. lia.
Qed.

Lemma registrations_event_id_fkey_booked :
  registrations_event_id_fkey Sample.booked.
Proof.
  intros r [<- | []]. left. reflexivity.
Qed.

Lemma new_event_stats_witness :
  fst (Stats.getStats (fun _ => "") "e-9"
         (snd (create_event "e-9" 5 "Fete" (Ok (Ok 2000)) "Green" 40
                            Sample.booked)))
  = mkResponse 200 (VObj [("totalRegistrations", VNum 0);
                          ("remainingCapacity", VNum 40);
                          ("percentUsed", VStr "0.00")]).
Proof.
  apply (new_event_stats (fun _ => "") "e-9" 5 "Fete" (Ok (Ok 2000)) "Green"
                         40 Sample.booked).
  - exact registrations_event_id_fkey_booked.
  - reflexivity.
Defined.

(** ** How registrations and cancellations compose *)

(** After a successful registration the event counts one more, and the
    email belongs to a user registered for it. *)
Lemma register_success_booked (eventId : uuid) (name email : string)
      (w : world) (d : database) :
  status (fst (register eventId name email w d)) = 201 ->
  let d' := snd (register eventId name email w d) in
  registration_count d' eventId = registration_count d eventId + 1
  /\ events d' = events d
  /\ exists u, find_user d' email = Some u
               /\ registered d' (user_id u) eventId = true.
Proof.
  intros H d'. subst d'.
  destruct (register_success_user eventId name email w d H)
    as (ev & u & d1 & _ & _ & _ & He & Hr & _ & Hu & _ & ->).
  cbn [snd]. split; [| split].
  - rewrite count_with_registration, String.eqb_refl.
    unfold registration_count. now rewrite Hr.
  - exact He.
  - exists u. split; [exact Hu | apply registered_with_registration].
Qed.

(** X7. A successful registration raises the registration count of its
    event by exactly one and changes the count of no other event; the
    events table is untouched, every earlier registration is kept, and a
    lookup of the email then yields a user who holds a registration for the
    event. *)
Theorem register_success_effect (eventId : uuid) (name email : string)
        (w : world) (d : database) :
  status (fst (register eventId name email w d)) = 201 ->
  let d' := snd (register eventId name email w d) in
  registration_count d' eventId = registration_count d eventId + 1
  /\ (forall other, other <> eventId ->
                    registration_count d' other = registration_count d other)
  /\ events d' = events d
  /\ (exists r, registrations d' = (registrations d ++ [r])%list)
  /\ exists u, find_user d' email = Some u
               /\ registered d' (user_id u) eventId = true.
Proof.
  intros H d'. subst d'.
  destruct (register_success_user eventId name email w d H)
    as (ev & u & d1 & _ & _ & _ & He & Hr & _ & Hu & _ & ->).
  cbn [snd].
  assert (forall e, registration_count d1 e = registration_count d e) as Hc
      by (intros e; unfold registration_count; now rewrite Hr).
  split; [| split; [| split; [| split]]].
  - rewrite count_with_registration, Hc, String.eqb_refl. reflexivity.
  - intros other Hne. rewrite count_with_registration, Hc.
    destruct (String.eqb_spec eventId other); [congruence | lia].
  - exact He.
  - eexists. cbn [with_registration registrations]. now rewrite Hr.
  - exists u. split; [exact Hu | apply registered_with_registration].
Qed.

Lemma register_success_effect_witness :
  registration_count
    (snd (register "e-2" "Bob" "bob@example.org" Sample.early Sample.booked))
    "e-2"
  = registration_count Sample.booked "e-2" + 1.
Proof.
  destruct (register_success_effect "e-2" "Bob" "bob@example.org"
                                    Sample.early Sample.booked)
    as [H _]; [reflexivity | exact H].
Defined.

(** X8. After a successful registration, a second register request for the
    same event with the same email never succeeds and commits nothing,
    whatever name it carries and whenever it is served: it is answered
    "Already registered", unless the event is by then past or full, which
    is reported first. *)
Theorem register_twice (eventId : uuid) (name email : string) (w : world)
        (d : database) (name' : string) (w' : world) :
  status (fst (register eventId name email w d)) = 201 ->
  let d' := snd (register eventId name email w d) in
  snd (register eventId name' email w' d') = d'
  /\ (fst (register eventId name' email w' d') = past_event
      \/ fst (register eventId name' email w' d') = event_full
      \/ fst (register eventId name' email w' d') = already_registered)
  /\ (forall ev,
         find_event d eventId = Some ev ->
         clock w' <= event_datetime ev ->
         registration_count d eventId + 1 < event_capacity ev ->
         fst (register eventId name' email w' d') = already_registered).
Proof.
  intros H d'.
  destruct (register_success_booked eventId name email w d H)
    as (Hcount & Hevents & u & Hu & Hreg).
  fold d' in Hcount, Hevents, Hu, Hreg.
  destruct (register_success_user eventId name email w d H)
    as (ev & _ & _ & Hev & _ & _ & _).
  assert (find_event d' eventId = Some ev) as Hev'
      by (rewrite (find_event_events d); assumption).
  rewrite register_run. unfold register_spec, resolve_user.
  rewrite Hev', Hu, Hreg.
  destruct (event_datetime ev <? clock w') eqn:Hpast;
    [cbn; split; [reflexivity | split; [now left |]] |].
  - intros ev0 Hev0 Hnow. rewrite Hev in Hev0. injection Hev0 as <-.
    apply Z.ltb_lt in Hpast. lia.
  - destruct (event_capacity ev <=? registration_count d' eventId) eqn:Hfull;
      cbn; (split; [reflexivity | split; [auto |]]).
    + intros ev0 Hev0 _ Hroom. rewrite Hev in Hev0. injection Hev0 as <-.
      apply Z.leb_le in Hfull. lia.
    + intros; reflexivity.
Qed.

Lemma register_twice_witness :
  fst (register "e-2" "Robert" "bob@example.org" Sample.early
                (snd (register "e-2" "Bob" "bob@example.org" Sample.early
                               Sample.booked)))
  = already_registered.
Proof.
  destruct (register_twice "e-2" "Bob" "bob@example.org" Sample.early
                           Sample.booked "Robert" Sample.early)
    as (_ & _ & H); [reflexivity |].
  apply (H Sample.fair); [reflexivity | | ]; vm_compute; congruence.
Defined.

(** X9. Once a successful registration has taken the last seat of an event,
    every further register request for that event, from anybody, is
    refused and commits nothing: "Event is full", or "Cannot register for
    past event" when the event is past. *)
Theorem last_seat (eventId : uuid) (name email : string) (w : world)
        (d : database) (ev : event) (name' email' : string) (w' : world) :
  status (fst (register eventId name email w d)) = 201 ->
  find_event d eventId = Some ev ->
  registration_count d eventId + 1 = event_capacity ev ->
  let d' := snd (register eventId name email w d) in
  snd (register eventId name' email' w' d') = d'
  /\ (clock w' <= event_datetime ev ->
      fst (register eventId name' email' w' d') = event_full)
  /\ (event_datetime ev < clock w' ->
      fst (register eventId name' email' w' d') = past_event).
Proof.
  intros H Hev Hlast d'.
  destruct (register_success_booked eventId name email w d H)
    as (Hcount & Hevents & _).
  fold d' in Hcount, Hevents.
  assert (find_event d' eventId = Some ev) as Hev'
      by (rewrite (find_event_events d); assumption).
  rewrite register_run. unfold register_spec. rewrite Hev'.
  destruct (Z.ltb_spec (event_datetime ev) (clock w')) as [Hpast | Hnow].
  - cbn. split; [reflexivity |]. split; [lia | reflexivity].
  - replace (event_capacity ev <=? registration_count d' eventId) with true
      by (symmetry; apply Z.leb_le; lia).
    cbn. split; [reflexivity |]. split; [reflexivity | lia].
Qed.

Lemma last_seat_witness :
  fst (register "e-9" "Bob" "bob@example.org" Sample.early
         (snd (register "e-9" "Ann" "ann@example.org" Sample.early
                 (mkDatabase [Sample.ann]
                             [mkEvent "e-9" "Fete" 2000 "Green" 1 5] []))))
  = event_full.
Proof.
  destruct (last_seat "e-9" "Ann" "ann@example.org" Sample.early
                      (mkDatabase [Sample.ann]
                                  [mkEvent "e-9" "Fete" 2000 "Green" 1 5] [])
                      (mkEvent "e-9" "Fete" 2000 "Green" 1 5)
                      "Bob" "bob@example.org" Sample.early
                      eq_refl eq_refl eq_refl)
    as (_ & H & _).
  apply H. vm_compute. discriminate.
Defined.

(** X10. Under the unique key on (user, event), a successful cancellation
    frees exactly one seat: the event counts one registration fewer, every
    other event counts as many as before, and the users and events tables
    are untouched. *)
Theorem cancel_frees_one_seat (eventId : uuid) (email : string)
        (d : database) :
  registrations_user_event_key d ->
  fst (cancel eventId email d) = registration_cancelled ->
  let d' := snd (cancel eventId email d) in
  registration_count d' eventId = registration_count d eventId - 1
  /\ (forall other, other <> eventId ->
                    registration_count d' other = registration_count d other)
  /\ users d' = users d
  /\ events d' = events d.
Proof.
  intros Hkey H d'. subst d'. revert H. rewrite cancel_run.
  destruct (find_user d email) as [u|]; [| discriminate].
  destruct (registered d (user_id u) eventId) eqn:Hreg; [| discriminate].
  intros _. cbn [snd].
  split; [| split; [| split; reflexivity]].
  - unfold registration_count, without_registration. cbn [registrations].
    pose proof (length_filter_remove (on_event eventId)
                  (on_pair (user_id u) eventId) (registrations d)) as Hlen.
    assert (forall r, on_pair (user_id u) eventId r = true ->
                      on_event eventId r = true) as Hsub
        by (intros r Hr; now apply andb_prop in Hr).
    specialize (Hlen Hsub).
    pose proof (one_row_per_pair (user_id u) eventId (registrations d) Hkey)
      as Hone.
    apply existsb_filter_cons in Hreg as (r & rest & E).
    rewrite E in Hlen, Hone. cbn [List.length] in Hlen, Hone. lia.
  - intros other Hne.
    unfold registration_count, without_registration. cbn [registrations].
    rewrite length_filter_disjoint; [reflexivity |].
    intros r Hr. apply andb_prop in Hr as [_ Hr].
    apply String.eqb_eq in Hr. unfold on_event. rewrite Hr.
    now apply String.eqb_neq.
Qed.

Lemma user_event_key_booked : registrations_user_event_key Sample.booked.
Proof.
  unfold registrations_user_event_key. cbn.
  constructor; [intros [] | constructor].
Qed.

Lemma cancel_frees_one_seat_witness :
  registration_count (snd (cancel "e-1" "ann@example.org" Sample.booked))
                     "e-1"
  = registration_count Sample.booked "e-1" - 1.
Proof.
  destruct (cancel_frees_one_seat "e-1" "ann@example.org" Sample.booked
                                  user_event_key_booked eq_refl)
    as [H _].
  exact H.
Defined.

(** X11. A cancellation cannot be repeated: after a successful cancel, the
    same request is answered "User not registered for this event" and
    changes nothing. *)
Theorem cancel_twice (eventId : uuid) (email : string) (d : database) :
  fst (cancel eventId email d) = registration_cancelled ->
  cancel eventId email (snd (cancel eventId email d))
  = (not_registered, snd (cancel eventId email d)).
Proof.
  rewrite (cancel_run eventId email d).
  destruct (find_user d email) as [u|] eqn:Hu; [| discriminate].
  destruct (registered d (user_id u) eventId) eqn:Hreg; [| discriminate].
  intros _. cbn [snd]. rewrite cancel_run.
  change (find_user (without_registration d (user_id u) eventId) email)
    with (find_user d email).
  rewrite Hu, registered_without. reflexivity.
Qed.

Lemma cancel_twice_witness :
  fst (cancel "e-1" "ann@example.org"
              (snd (cancel "e-1" "ann@example.org" Sample.booked)))
  = not_registered.
Proof.
  rewrite (cancel_twice "e-1" "ann@example.org" Sample.booked eq_refl).
  reflexivity.
Defined.

(** X12. Cancelling right after a successful registration undoes the
    registration and nothing else: the registrations and events tables are
    back to what they were before the registration, while a user the
    registration created stays stored. *)
Theorem register_then_cancel (eventId : uuid) (name email : string)
        (w : world) (d : database) :
  status (fst (register eventId name email w d)) = 201 ->
  let d' := snd (register eventId name email w d) in
  fst (cancel eventId email d') = registration_cancelled
  /\ registrations (snd (cancel eventId email d')) = registrations d
  /\ events (snd (cancel eventId email d')) = events d
  /\ users (snd (cancel eventId email d')) = users d'.
Proof.
  intros H d'. subst d'.
  destruct (register_success_user eventId name email w d H)
    as (ev & u & d1 & _ & _ & _ & He & Hr & _ & Hu & Hfree & ->).
  cbn [snd]. rewrite cancel_run.
  change (find_user (with_registration d1 w (user_id u) eventId) email)
    with (find_user d1 email).
  rewrite Hu, registered_with_registration. cbn [fst snd].
  split; [reflexivity |]. split; [| split; [| reflexivity]].
  - cbn [without_registration with_registration registrations].
    rewrite Hr, filter_snoc. unfold on_pair at 2.
    cbn [reg_user_id reg_event_id]. rewrite !String.eqb_refl. cbn [negb andb].
    rewrite app_nil_r. now apply filter_keep_all.
  - cbn [without_registration with_registration events]. exact He.
Qed.

Lemma register_then_cancel_witness :
  registrations
    (snd (cancel "e-2" "bob@example.org"
                 (snd (register "e-2" "Bob" "bob@example.org" Sample.early
                                Sample.booked))))
  = registrations Sample.booked.
Proof.
  destruct (register_then_cancel "e-2" "Bob" "bob@example.org" Sample.early
                                 Sample.booked eq_refl)
    as (_ & H & _).
  exact H.
Defined.

(** X13. The cancel route never looks the event up: in a database whose
    registrations all refer to stored events, a cancel request for an
    event that is not stored is answered like one for an event the user is
    not registered for ("User not found" or "User not registered for this
    event") and changes nothing. *)
Theorem cancel_unknown_event (eventId : uuid) (email : string)
        (d : database) :
  registrations_event_id_fkey d ->
  find_event d eventId = None ->
  snd (cancel eventId email d) = d
  /\ (fst (cancel eventId email d) = user_not_found
      \/ fst (cancel eventId email d) = not_registered).
Proof.
  intros Hfk Hev. rewrite cancel_run.
  destruct (find_user d email) as [u|]; [| split; [reflexivity | now left]].
  rewrite unknown_event_not_registered; [split; [reflexivity | now right] | |].
  - exact Hfk.
  - apply hd_error_filter_none in Hev. now apply filter_nil_existsb.
Qed.

Lemma cancel_unknown_event_witness :
  fst (cancel "e-404" "ann@example.org" Sample.booked) = not_registered.
Proof.
  destruct (cancel_unknown_event "e-404" "ann@example.org" Sample.booked
                                 registrations_event_id_fkey_booked eq_refl)
    as [_ [H | H]].
  - vm_compute in H. discriminate.
  - exact H.
Defined.



(** ** Statistics of the databases the routes can produce *)

Lemma hundredths_range (t c n : Z) :
  0 <= t <= c -> 0 < c <= 1000 ->
  2 * Z.abs (n * c - 10000 * t) <= c ->
  0 <= n <= 10000 /\ (n = 0 <-> t = 0) /\ (n = 10000 <-> t = c).
Proof.
  intros Ht Hc Hn.
  assert (0 <= n) as Hlo by nia.
  assert (n <= 10000) as Hhi by nia.
  split; [lia |]. split; split; intros E; nia.
Qed.

(** X15. In every database the routes produce from the empty one, the
    statistics of a stored event are in range: the route answers 200 with
    a remaining capacity that is not negative and a percentage of two
    decimals between 0.00 and 100.00, which is 0.00 exactly when nobody is
    registered and 100.00 exactly when the event is full; it leaves the
    database as it is. *)
Theorem stats_of_reachable (ts : spec_float -> string)
        (ops : list operation) (id : uuid) (ev : event) :
  let d := run_all ops empty_db in
  find_event d id = Some ev ->
  exists n,
    Stats.getStats ts id d
    = (stats_json (registration_count d id) (event_capacity ev)
                  (Number.fixed_digits 2 n), d)
    /\ 0 <= event_capacity ev - registration_count d id
    /\ 0 <= n <= 10000
    /\ (n = 0 <-> registration_count d id = 0)
    /\ (n = 10000 <-> registration_count d id = event_capacity ev).
Proof.
  intros d Hev.
  destruct empty_db_consistent as [Hs Hc].
  destruct (run_all_consistent ops empty_db Hs Hc) as [Hs' Hc'].
  fold d in Hs', Hc'.
  pose proof (Hc' id ev Hev) as Hroom.
  assert (0 < event_capacity ev <= 1000) as Hcap.
  { apply find_event_in in Hev as [_ Hin].
    now apply (holds_capacity_check _ Hs'). }
  assert (0 <= registration_count d id) as H0
      by (unfold registration_count; lia).
  assert (1000 < 2 ^ 31) as H31 by reflexivity.
  destruct (percent_used_nearest ts (registration_count d id)
                                 (event_capacity ev) ltac:(lia) ltac:(lia))
    as (n & E & Hn & _).
  exists n. rewrite stats_run, Hev, E.
  split; [reflexivity |]. split; [lia |].
  apply hundredths_range; [lia | lia | exact Hn].
Qed.

Lemma stats_of_reachable_witness :
  exists n,
    Stats.getStats (fun _ => "") "e-9"
      (run_all [CreateEvent "e-9" 5 "Fete" (Ok (Ok 2000)) "Green" 3;
                Serve (Register "e-9" "Ann" "ann@example.org" Sample.early)]
               empty_db)
    = (stats_json 1 3 (Number.fixed_digits 2 n),
       run_all [CreateEvent "e-9" 5 "Fete" (Ok (Ok 2000)) "Green" 3;
                Serve (Register "e-9" "Ann" "ann@example.org" Sample.early)]
               empty_db)
    /\ 0 <= n <= 10000.
Proof.
  destruct (stats_of_reachable
              (fun _ => "")
              [CreateEvent "e-9" 5 "Fete" (Ok (Ok 2000)) "Green" 3;
               Serve (Register "e-9" "Ann" "ann@example.org" Sample.early)]
              "e-9" (mkEvent "e-9" "Fete" 2000 "Green" 3 5) eq_refl)
    as (n & E & _ & Hn & _).
  exists n. split; [exact E | exact Hn].
Defined.
